(** * whisper_audio_overlay: live captioning loop, transcription adapter,
      subtitle duration and recording controller

    A shallow embedding of [whisper_audio_overlay.py].  Python values are
    modelled as follows.

    - [str] is a sequence of Unicode code points ([list N]).  The character
      tables of the interpreter are given in full on ASCII; the part of
      [str.isalnum] and of the decimal digits beyond ASCII is a parameter
      ([unicode]).  White space ([str.isspace], also the regex class [\s])
      is given in full.
    - [bytes] is [list byte].
    - A sample of the float32 buffer is the exact rational [v / 32768] of
      the 16 bit integer [v] it was decoded from (the division by a power of
      two is exact in float32).  Times in the subtitle parser are exact
      rationals as well; Python computes them in binary64.
    - External processes (audiotee, whisper.cpp) are oracles of the
      environment: what a read of the pipe returns, what the engine exits
      with and which files it leaves behind. *)

From Stdlib Require Import String Ascii Strings.Byte.
From Stdlib Require Import ZArith NArith QArith List Bool Lia.
Import ListNotations.
Open Scope Z_scope.

(* ================================================================== *)
(** ** Python strings *)

Module PyStr.

Abbreviation char := N (only parsing).
Abbreviation str := (list N) (only parsing).

(** A literal of the source, as code points. *)
Definition py (s : string) : str :=
  List.map N_of_ascii (list_ascii_of_string s).

Fixpoint str_eqb (a b : str) : bool :=
  match a, b with
  | [], [] => true
  | x :: a', y :: b' => N.eqb x y && str_eqb a' b'
  | _, _ => false
  end.

(** Truth value of a string: [if text:]. *)
Definition truthy (s : str) : bool :=
  match s with [] => false | _ :: _ => true end.

(** [str.isspace] on one character; also the regex class [\s]. *)
Definition isspace (c : char) : bool :=
  ((9 <=? c) && (c <=? 13) || (28 <=? c) && (c <=? 32)
   || (c =? 133) || (c =? 160) || (c =? 5760)
   || (8192 <=? c) && (c <=? 8202)
   || (c =? 8232) || (c =? 8233) || (c =? 8239) || (c =? 8287)
   || (c =? 12288))%N.

(** What the interpreter's character database says beyond ASCII. *)
Record unicode := {
  u_isalnum : char -> bool;        (* str.isalnum, code points >= 128 *)
  u_decimal : char -> option Z     (* value of a decimal digit, code points >= 128 *)
}.

(** The table on U+0080..U+00FF (letters, superscript digits and vulgar
    fractions are alphanumeric; the block has no decimal digit); nothing is
    said beyond. *)
Definition latin1 : unicode :=
  {| u_isalnum := fun c =>
       ((c =? 170) || (c =? 178) || (c =? 179) || (c =? 181) || (c =? 185)
        || (c =? 186) || (188 <=? c) && (c <=? 190)
        || (192 <=? c) && (c <=? 214) || (216 <=? c) && (c <=? 246)
        || (248 <=? c) && (c <=? 255))%N;
     u_decimal := fun _ => None |}.

Definition ascii_isalnum (c : char) : bool :=
  ((48 <=? c) && (c <=? 57) || (65 <=? c) && (c <=? 90)
   || (97 <=? c) && (c <=? 122))%N.

Definition isalnum (u : unicode) (c : char) : bool :=
  if (c <? 128)%N then ascii_isalnum c else u_isalnum u c.

(** Value of a decimal digit ([\d], [int]); no white space character is
    one. *)
Definition decimal (u : unicode) (c : char) : option Z :=
  if (c <? 128)%N then
    if ((48 <=? c) && (c <=? 57))%N then Some (Z.of_N c - 48) else None
  else if isspace c then None else u_decimal u c.

Fixpoint lstrip_by (p : char -> bool) (s : str) : str :=
  match s with
  | [] => []
  | c :: s' => if p c then lstrip_by p s' else s
  end.

Definition rstrip_by (p : char -> bool) (s : str) : str :=
  rev (lstrip_by p (rev s)).

(** [s.strip()] and [s.strip(chars)]. *)
Definition strip_by (p : char -> bool) (s : str) : str :=
  rstrip_by p (lstrip_by p s).

Definition strip (s : str) : str := strip_by isspace s.

Definition strip_chars (chars : str) (s : str) : str :=
  strip_by (fun c => existsb (N.eqb c) chars) s.

Fixpoint startswith (g s : str) : bool :=
  match g, s with
  | [], _ => true
  | x :: g', y :: s' => N.eqb x y && startswith g' s'
  | _ :: _, [] => false
  end.

(** [s.replace(g, "")] for a non-empty [g]: the occurrences of [g] are
    found from the left and do not overlap.  [skip] counts the characters
    of a found occurrence that are still to be dropped. *)
Fixpoint remove_from (g : str) (skip : nat) (s : str) : str :=
  match s with
  | [] => []
  | c :: s' =>
      match skip with
      | S k => remove_from g k s'
      | O => if startswith g s then remove_from g (length g - 1) s'
             else c :: remove_from g 0 s'
      end
  end.

Definition remove (g s : str) : str := remove_from g 0 s.

(** [a < b] on strings: code point by code point, as [sorted] compares. *)
Fixpoint str_ltb (a b : str) : bool :=
  match a, b with
  | _, [] => false
  | [], _ :: _ => true
  | x :: a', y :: b' =>
      if (x <? y)%N then true else if (y <? x)%N then false else str_ltb a' b'
  end.

Fixpoint insert_sorted (x : str) (l : list str) : list str :=
  match l with
  | [] => [x]
  | y :: l' => if str_ltb y x then y :: insert_sorted x l' else x :: l
  end.

(** [sorted(l)] on a list of strings. *)
Definition sorted (l : list str) : list str :=
  fold_right insert_sorted [] l.

Definition endswith (g s : str) : bool := startswith (rev g) (rev s).

(** The lines a text file yields when iterated (universal newlines:
    a line ends at LF, CR or CR LF, and keeps a final LF). *)
Fixpoint lines_from (cur : str) (s : str) : list str :=
  match s with
  | [] => match cur with [] => [] | _ => [rev cur] end
  | c :: s' =>
      if (c =? 10)%N then rev (10%N :: cur) :: lines_from [] s'
      else if (c =? 13)%N then
        match s' with
        | c' :: s'' =>
            if (c' =? 10)%N then rev (10%N :: cur) :: lines_from [] s''
            else rev (10%N :: cur) :: lines_from [] s'
        | [] => [rev (10%N :: cur)]
        end
      else lines_from (c :: cur) s'
  end.

Definition lines (s : str) : list str := lines_from [] s.

End PyStr.
Import PyStr.

(* ================================================================== *)
(** ** Paths, console, host and external processes *)

Module Host.

(** [os.path.join(a, b)] (POSIX). *)
Definition path_join (a b : str) : str :=
  if startswith (py "/") b then b
  else if negb (truthy a) || endswith (py "/") a then a ++ b
  else a ++ py "/" ++ b.

Fixpoint take_until (sep : char) (s : str) : str :=
  match s with
  | [] => []
  | c :: s' => if (c =? sep)%N then [] else c :: take_until sep s'
  end.

Fixpoint drop_until (sep : char) (s : str) : option str :=
  match s with
  | [] => None
  | c :: s' => if (c =? sep)%N then Some s' else drop_until sep s'
  end.

(** [os.path.basename(p)]: what follows the last slash. *)
Definition basename (p : str) : str := rev (take_until 47%N (rev p)).

(** [os.path.splitext(name)] on a base name: split at the last dot, unless
    only dots precede it. *)
Definition splitext (name : str) : str * str :=
  match drop_until 46%N (rev name) with
  | None => (name, [])
  | Some root_rev =>
      if forallb (N.eqb 46%N) root_rev then (name, [])
      else (rev root_rev, 46%N :: rev (take_until 46%N (rev name)))
  end.

(** [s.split(sep)] for a one character separator. *)
Fixpoint split_from (sep : char) (cur : str) (s : str) : list str :=
  match s with
  | [] => [rev cur]
  | c :: s' =>
      if (c =? sep)%N then rev cur :: split_from sep [] s'
      else split_from sep (c :: cur) s'
  end.

Definition split (sep : char) (s : str) : list str := split_from sep [] s.

(** [" ".join(l)]. *)
Fixpoint join_space (l : list str) : str :=
  match l with
  | [] => []
  | [x] => x
  | x :: l' => x ++ py " " ++ join_space l'
  end.

(** One call of [print]: its arguments. *)
Inductive pyarg := PStr (s : str) | PInt (z : Z).
Definition console := list (list pyarg).

(** What the code asks the machine before it starts a process. *)
Record host := {
  env_PATH : str;               (* os.getenv("PATH", "") *)
  access_x : str -> bool;       (* os.access(p, os.X_OK) *)
  isfile : str -> bool          (* os.path.isfile(p) *)
}.

(** Files (path, text) found after a process has run. *)
Definition files := list (str * str).

Fixpoint read_text (fs : files) (p : str) : option str :=
  match fs with
  | [] => None
  | (q, c) :: fs' => if str_eqb q p then Some c else read_text fs' p
  end.

Definition isfile_in (fs : files) (p : str) : bool :=
  match read_text fs p with Some _ => true | None => false end.

Fixpoint drop_prefix (g s : str) : option str :=
  match g, s with
  | [], _ => Some s
  | x :: g', y :: s' => if (x =? y)%N then drop_prefix g' s' else None
  | _ :: _, [] => None
  end.

(** [glob.glob(prefix + "*.srt")] for a prefix free of glob
    metacharacters: the star matches within one path component. *)
Definition glob_srt (fs : files) (prefix : str) : list str :=
  List.map fst
    (filter (fun f =>
       match drop_prefix prefix (fst f) with
       | Some rest => endswith (py ".srt") rest
                      && negb (existsb (N.eqb 47%N) rest)
       | None => false
       end) fs).

(** [subprocess.run(cmd, capture_output=True, text=True)]. *)
Record completed := {
  returncode : Z;
  stdout : str;
  stderr : str;
  files_after : files
}.

End Host.
Import Host.

(* ================================================================== *)
(** ** Configuration *)

Definition AUDIO_TEE_PATH : str := py "audiotee".
Definition WHISPER_BIN : str :=
  py "/Users/nickshroff/whisper.cpp/build/bin/whisper-cli".
Definition WHISPER_MODEL : str :=
  py "/Users/nickshroff/whisper.cpp/models/ggml-large-v3.bin".

Definition SAMPLE_RATE : Z := 16000.
Definition CHUNK_SEC : Q := 2.
Definition SEGMENT_SEC : Q := 12.
Definition STEP_SEC : Q := 6.

Definition RECORDINGS_DIR : str := py "recordings".
Definition SUBTITLES_DIR : str := py "subtitles".
Definition VIDEO_DIR : str := py "videos".

(** [int(x)]: truncation toward zero. *)
Definition py_int (x : Q) : Z := Z.quot (Qnum x) (Zpos (Qden x)).

Record AppConfig := {
  _output_mode : str;              (* "english" or "original" *)
  _source_lang : option str        (* e.g. "hi", or None for auto *)
}.

Definition AppConfig_init : AppConfig :=
  {| _output_mode := py "english"; _source_lang := None |}.

Definition set_output_mode (c : AppConfig) (mode : str) : AppConfig :=
  {| _output_mode := mode; _source_lang := _source_lang c |}.
Definition get_output_mode (c : AppConfig) : str := _output_mode c.
Definition set_source_lang (c : AppConfig) (code : option str) : AppConfig :=
  {| _output_mode := _output_mode c; _source_lang := code |}.
Definition get_source_lang (c : AppConfig) : option str := _source_lang c.

(** [which_exec(path)]. *)
Definition which_exec (h : host) (path : str) : option str :=
  if startswith (py "/") path then
    if access_x h path then Some path else None
  else
    find (access_x h)
         (List.map (fun directory => path_join directory path)
                   (split 58%N (env_PATH h))).

(* ================================================================== *)
(** ** Transcription adapter *)

(** A sample of the float32 buffer. *)
Definition sample := Q.

(** whisper.cpp run on one segment: the command line and the audio of the
    WAV file it is given (a function of the segment). *)
Definition segment_engine := list str -> list sample -> completed.

(** whisper.cpp run on a recording that is already on disk. *)
Definition file_engine := list str -> completed.

Definition garbage_phrases : list str :=
  [ py "Subtitles by the Amara.org community";
    py "Subtitles by Amara.org";
    py "Subtitles by the community";
    py "Thanks for watching!";
    py "*music*";
    py "* Badass music *" ].

(** The loop [for g in garbage_phrases: text = text.replace(g, "")]. *)
Definition remove_garbage (text : str) : str :=
  fold_left (fun t g => remove g t) garbage_phrases text.

Definition whisper_lang_of (lang_code : option str) : str :=
  match lang_code with
  | Some c => if truthy c then c else py "auto"
  | None => py "auto"
  end.

(** The command line of [run_whisper_cpp]. *)
Definition segment_cmd (wav_path output_mode : str) (lang_code : option str)
  : list str :=
  let txt_prefix := wav_path in
  let whisper_lang := whisper_lang_of lang_code in
  [ WHISPER_BIN; py "-m"; WHISPER_MODEL; py "-f"; wav_path;
    py "-l"; whisper_lang; py "-otxt"; py "-of"; txt_prefix ]
  ++ (if str_eqb output_mode (py "english") then [py "-tr"] else []).

(** [run_whisper_cpp(segment, output_mode, lang_code)]; [wav_path] is the
    name of the temporary file, [files_after] what is found once the
    engine has run (the two temporary files are removed before the
    function returns).  Returns the text and what was printed. *)
Definition run_whisper_cpp (engine : segment_engine) (wav_path : str)
    (segment : list sample) (output_mode : str) (lang_code : option str)
  : str * console :=
  let txt_path := wav_path ++ py ".txt" in
  let cmd := segment_cmd wav_path output_mode lang_code in
  let result := engine cmd segment in
  let out :=
    if returncode result =? 0 then []
    else [[PStr (py "[whisper.cpp ERROR]"); PStr (strip (stderr result))]] in
  let text :=
    match read_text (files_after result) txt_path with
    | Some content => strip content
    | None => []                     (* FileNotFoundError *)
    end in
  let text :=
    if truthy text then strip (remove_garbage text) else text in
  (text, out).

(** The output prefix and the command line of [segment_episode]. *)
Definition episode_prefix (wav_path : str) (translate_to_english : bool) : str :=
  let base_name := fst (splitext (basename wav_path)) in
  let suffix := if translate_to_english then py "_en" else [] in
  path_join SUBTITLES_DIR (base_name ++ suffix).

Definition episode_cmd (wav_path : str) (lang_code : option str)
    (translate_to_english : bool) : list str :=
  let out_prefix := episode_prefix wav_path translate_to_english in
  let whisper_lang := whisper_lang_of lang_code in
  [ WHISPER_BIN; py "-m"; WHISPER_MODEL; py "-f"; wav_path;
    py "-l"; whisper_lang; py "-osrt"; py "-of"; out_prefix;
    py "-bs"; py "8" ]
  ++ (if translate_to_english then [py "-tr"] else []).

(** [segment_episode(wav_path, lang_code, translate_to_english)].
    Returns the path of the subtitle file, or [None], and what was
    printed. *)
Definition segment_episode (h : host) (engine : file_engine)
    (wav_path : str) (lang_code : option str) (translate_to_english : bool)
  : option str * console :=
  if negb (isfile h WHISPER_BIN) then
    (None, [[PStr (py "[SEGMENT ERROR] whisper.cpp binary not found.")]])
  else if negb (isfile h WHISPER_MODEL) then
    (None, [[PStr (py "[SEGMENT ERROR] whisper model not found.")]])
  else
    let out_prefix := episode_prefix wav_path translate_to_english in
    let cmd := episode_cmd wav_path lang_code translate_to_english in
    let out0 :=
      [ [PStr (py "[SEGMENT] Running whisper.cpp for full-episode subtitles...")];
        [PStr (py "[SEGMENT] Command:"); PStr (join_space cmd)] ] in
    let result := engine cmd in
    let out1 :=
      out0
      ++ (if truthy (stdout result)
          then [[PStr (py "[SEGMENT stdout]")]; [PStr (stdout result)]] else [])
      ++ (if truthy (stderr result)
          then [[PStr (py "[SEGMENT stderr]")]; [PStr (stderr result)]] else []) in
    if negb (returncode result =? 0) then
      (None,
       out1 ++ [[PStr (py "[SEGMENT ERROR] whisper.cpp returned non-zero exit code:");
                 PInt (returncode result)]])
    else
      let srt_path := out_prefix ++ py ".srt" in
      if isfile_in (files_after result) srt_path then
        (Some srt_path, out1 ++ [[PStr (py "[SEGMENT] SRT created:"); PStr srt_path]])
      else
        let candidates := sorted (glob_srt (files_after result) out_prefix) in
        match candidates with
        | srt_path :: _ =>
            (Some srt_path,
             out1 ++ [[PStr (py "[SEGMENT] Exact SRT not found, using fallback: "
                             ++ srt_path)]])
        | [] =>
            (None,
             out1 ++ [[PStr (py "[SEGMENT ERROR] Expected SRT not found for prefix:");
                       PStr out_prefix]])
        end.

(* ================================================================== *)
(** ** Live segmentation loop *)

Module Live.

(** [buffer[:n]] and [buffer[n:]]; a negative index counts from the end. *)
Definition slice_to {A} (n : Z) (l : list A) : list A :=
  if 0 <=? n then firstn (Z.to_nat n) l
  else firstn (Z.to_nat (Z.of_nat (length l) + n)) l.

Definition slice_from {A} (n : Z) (l : list A) : list A :=
  if 0 <=? n then skipn (Z.to_nat n) l
  else skipn (Z.to_nat (Z.of_nat (length l) + n)) l.

Definition i16_of_bytes (lo hi : byte) : Z :=
  let v := Z.of_N (Byte.to_N lo) + 256 * Z.of_N (Byte.to_N hi) in
  if v <? 32768 then v else v - 65536.

(** [np.frombuffer(raw, dtype="<i2")]; [None] is the ValueError raised
    when the size is not a multiple of two. *)
Fixpoint frombuffer_i2 (raw : list byte) : option (list Z) :=
  match raw with
  | [] => Some []
  | lo :: hi :: raw' =>
      match frombuffer_i2 raw' with
      | Some l => Some (i16_of_bytes lo hi :: l)
      | None => None
      end
  | [_] => None
  end.

(** [pcm_i16.astype(np.float32) / 32768.0]. *)
Definition to_float (pcm_i16 : list Z) : list sample :=
  List.map (fun v => Qmake v 32768) pcm_i16.

(** What the worker's thread sees of the world: the machine, the
    successive results of [proc.stdout.read(chunk_bytes)] (each of at most
    [chunk_bytes] bytes; the pipe is at end of stream after the last), the
    stop event at each test of the loop, and for the k-th call of the transcription adapter the
    configuration read, the temporary file name and the engine. *)
Record world := {
  machine : host;
  reads : list (list byte);
  stop_is_set : nat -> bool;
  config_at : nat -> AppConfig;
  tmp_name_at : nat -> str;
  engine_at : nat -> segment_engine
}.

(** One call of the transcription adapter, for the record: the segment
    passed, the offset of its first sample in the stream, the size of the
    buffer when the loop condition was tested and after the shift. *)
Record emission := {
  em_segment : list sample;
  em_offset : Z;
  em_buffered : Z;
  em_retained : Z
}.

Record loop_state := {
  buffer : list sample;
  last_line : str;
  text_queue : list str;
  printed : console;
  dropped : Z;                     (* samples shifted out of the buffer so far *)
  calls : list emission
}.

Definition initial : loop_state :=
  {| buffer := []; last_line := []; text_queue := []; printed := [];
     dropped := 0; calls := [] |}.

(** [if text and text != last_line: last_line = text; text_queue.put(text)]:
    whether the text is forwarded, and the new [last_line]. *)
Definition accept (last_line text : str) : bool * str :=
  if truthy text && negb (str_eqb text last_line) then (true, text)
  else (false, last_line).

(** The filter run over a sequence of texts: the answers, in order. *)
Fixpoint accept_all (last_line : str) (texts : list str) : list bool :=
  match texts with
  | [] => []
  | x :: texts' =>
      let '(forwarded, last') := accept last_line x in
      forwarded :: accept_all last' texts'
  end.

Section Loop.

Variable segment_samples step_samples : Z.
Variable w : world.

(** Body of [while buffer.shape[0] >= segment_samples]. *)
Definition emit (st : loop_state) : loop_state :=
  let segment := slice_to segment_samples (buffer st) in
  let k := length (calls st) in
  let output_mode := get_output_mode (config_at w k) in
  let lang_code := get_source_lang (config_at w k) in
  let '(text, out) :=
    run_whisper_cpp (engine_at w k) (tmp_name_at w k) segment
                    output_mode lang_code in
  let '(forwarded, last') := accept (last_line st) text in
  let buffer' := slice_from step_samples (buffer st) in
  {| buffer := buffer';
     last_line := last';
     text_queue := if forwarded then text_queue st ++ [text] else text_queue st;
     printed := printed st ++ out;
     dropped := dropped st
                + (Z.of_nat (length (buffer st)) - Z.of_nat (length buffer'));
     calls := calls st
              ++ [{| em_segment := segment;
                     em_offset := dropped st;
                     em_buffered := Z.of_nat (length (buffer st));
                     em_retained := Z.of_nat (length buffer') |}] |}.

(** The inner while loop; [None] when the fuel runs out. *)
Fixpoint drain (fuel : nat) (st : loop_state) : option loop_state :=
  if Z.of_nat (length (buffer st)) >=? segment_samples then
    match fuel with
    | O => None
    | S fuel' => drain fuel' (emit st)
    end
  else Some st.

Inductive outcome :=
| MissingDependency (out : console)       (* returned before the loop *)
| StopRequested (st : loop_state)         (* stop_event was set *)
| EndOfStream (st : loop_state)           (* the read returned nothing *)
| ValueError (st : loop_state)            (* raised by np.frombuffer *)
| Diverges.                               (* the inner loop never ends *)

Definition say (st : loop_state) (line : list pyarg) : loop_state :=
  {| buffer := buffer st; last_line := last_line st;
     text_queue := text_queue st; printed := printed st ++ [line];
     dropped := dropped st; calls := calls st |}.

Definition concatenate (st : loop_state) (audio : list sample) : loop_state :=
  {| buffer := buffer st ++ audio; last_line := last_line st;
     text_queue := text_queue st; printed := printed st;
     dropped := dropped st; calls := calls st |}.

(** [while not stop_event.is_set(): ...], at its [i]-th test, [rest] being
    what the pipe still has to deliver.  The pipe was asked for, so
    [proc.stdout] is never [None]; the sleep at the end of the body has no
    effect on the state. *)
Fixpoint loop (i : nat) (rest : list (list byte)) (st : loop_state) : outcome :=
  if stop_is_set w i then StopRequested st
  else
    match rest with
    | [] => EndOfStream (say st [PStr (py "[INFO] audiotee EOF")])
    | raw :: rest' =>
        match raw with
        | [] => EndOfStream (say st [PStr (py "[INFO] audiotee EOF")])
        | _ :: _ =>
            match frombuffer_i2 raw with
            | None => ValueError st
            | Some pcm_i16 =>
                let st1 := concatenate st (to_float pcm_i16) in
                match drain (S (length (buffer st1))) st1 with
                | None => Diverges
                | Some st2 => loop (S i) rest' st2
                end
            end
        end
    end.

End Loop.

Definition chunk_bytes : Z := py_int (inject_Z SAMPLE_RATE * CHUNK_SEC * 2).
Definition segment_samples : Z := py_int (SEGMENT_SEC * inject_Z SAMPLE_RATE).
Definition step_samples : Z := py_int (STEP_SEC * inject_Z SAMPLE_RATE).

(** [audio_worker(config, text_queue, stop_event)]. *)
Definition audio_worker (w : world) : outcome :=
  match which_exec (machine w) AUDIO_TEE_PATH with
  | None =>
      MissingDependency
        [[PStr (py "[ERROR] audiotee not found at 'audiotee'.")]]
  | Some audiotee_exe =>
      if negb (isfile (machine w) WHISPER_BIN) then
        MissingDependency
          [[PStr (py "[ERROR] whisper.cpp binary not found at '"
                  ++ WHISPER_BIN ++ py "'.")]]
      else if negb (isfile (machine w) WHISPER_MODEL) then
        MissingDependency
          [[PStr (py "[ERROR] whisper model not found at '"
                  ++ WHISPER_MODEL ++ py "'.")]]
      else
        loop segment_samples step_samples w 0 (reads w)
          {| buffer := []; last_line := []; text_queue := [];
             printed :=
               [ [PStr (py "[INFO] Using audiotee: " ++ audiotee_exe)];
                 [PStr (py "[INFO] Using whisper.cpp: " ++ WHISPER_BIN)];
                 [PStr (py "[INFO] Model: " ++ WHISPER_MODEL)];
                 [PStr (py "[INFO] Starting audiotee:");
                  PStr (join_space [audiotee_exe; py "--sample-rate"; py "16000";
                                    py "--chunk-duration"; py "2.0"])] ];
             dropped := 0; calls := [] |}
  end.

(** The state the worker ends in, when it ends. *)
Definition final_state (o : outcome) : option loop_state :=
  match o with
  | MissingDependency out =>
      Some {| buffer := []; last_line := []; text_queue := [];
              printed := out; dropped := 0; calls := [] |}
  | StopRequested st | EndOfStream st | ValueError st => Some st
  | Diverges => None
  end.

(** The samples of a sequence of reads, one after the other. *)
Definition decode_all (chunks : list (list byte)) : list sample :=
  flat_map (fun raw => match frombuffer_i2 raw with
                       | Some pcm_i16 => to_float pcm_i16
                       | None => []
                       end) chunks.

(** The window of [n] samples that starts at offset [off] of a stream. *)
Definition window (off n : Z) (stream : list sample) : list sample :=
  firstn (Z.to_nat n) (skipn (Z.to_nat off) stream).

(** A read of a whole number of samples, at least one. *)
Definition whole (raw : list byte) : Prop :=
  exists n, (0 < n)%nat /\ (length raw = 2 * n)%nat.

(** Every emission found the buffer holding exactly one segment, and the
    buffer holds a whole number of chunks of [c] samples. *)
Definition exact_ok (segment_samples c : Z) (st : loop_state) : Prop :=
  (c | Z.of_nat (length (buffer st)))
  /\ Forall (fun e => em_buffered e = segment_samples) (calls st).

(** The differences between consecutive elements. *)
Fixpoint gaps (l : list Z) : list Z :=
  match l with
  | x :: (y :: _) as l' => (y - x) :: gaps l'
  | _ => []
  end.

(** The record of the calls agrees with the sizes: the k-th call is at
    offset k times the hop, on a segment of full length, taken from a
    buffer of at least that length, of which all but the hop is kept. *)
Definition log_ok (segment_samples step_samples : Z) (st : loop_state) : Prop :=
  dropped st = step_samples * Z.of_nat (length (calls st))
  /\ List.map em_offset (calls st)
     = List.map (fun k => step_samples * Z.of_nat k) (seq 0 (length (calls st)))
  /\ Forall (fun e =>
               Z.of_nat (length (em_segment e)) = segment_samples
               /\ segment_samples <= em_buffered e
               /\ em_retained e = em_buffered e - step_samples)
            (calls st).

(** The buffer is what is left of the stream read so far, and every
    segment passed on is a window of that stream. *)
Definition windows_ok (segment_samples : Z) (st : loop_state)
    (stream : list sample) : Prop :=
  0 <= dropped st <= Z.of_nat (length stream)
  /\ buffer st = skipn (Z.to_nat (dropped st)) stream
  /\ Forall (fun e =>
               0 <= em_offset e
               /\ em_offset e + segment_samples <= Z.of_nat (length stream)
               /\ em_segment e = window (em_offset e) segment_samples stream)
            (calls st).

End Live.

(* ================================================================== *)
(** ** Subtitle duration *)

Module Srt.

(** The longest prefix of decimal digits, as digit values, and the rest. *)
Fixpoint span_digits (u : unicode) (s : str) : list Z * str :=
  match s with
  | [] => ([], [])
  | c :: s' =>
      match decimal u c with
      | Some d => let '(ds, rest) := span_digits u s' in (d :: ds, rest)
      | None => ([], s)
      end
  end.

(** [int] of a run of digits. *)
Definition int_of_digits (ds : list Z) : Z :=
  fold_left (fun a d => 10 * a + d) ds 0.

(** The group [(\d+)]. *)
Definition number (u : unicode) (s : str) : option (Z * str) :=
  match span_digits u s with
  | ([], _) => None
  | (ds, rest) => Some (int_of_digits ds, rest)
  end.

Definition bind {A B} (x : option A) (f : A -> option B) : option B :=
  match x with Some a => f a | None => None end.

Notation "' p <- x ;; k" := (bind x (fun p => k))
  (at level 61, p pattern, x at next level, right associativity).

(** The groups [(\d+):(\d+):(\d+),(\d+)]. *)
Definition timestamp (u : unicode) (s : str) : option (Z * Z * Z * Z * str) :=
  ' (h, s1) <- number u s ;;
  ' s2 <- drop_prefix (py ":") s1 ;;
  ' (m, s3) <- number u s2 ;;
  ' s4 <- drop_prefix (py ":") s3 ;;
  ' (sec, s5) <- number u s4 ;;
  ' s6 <- drop_prefix (py ",") s5 ;;
  ' (ms, s7) <- number u s6 ;;
  Some (h, m, sec, ms, s7).

(** [time_re.match(line)]: the groups 5 to 8 of a match at the start of
    the line.  Every repetition is followed by a character outside its
    class, so the greedy match is the only one. *)
Definition time_re_match (u : unicode) (line : str) : option (Z * Z * Z * Z) :=
  ' (_, s1) <- timestamp u line ;;
  ' s2 <- drop_prefix (py "-->") (lstrip_by isspace s1) ;;
  ' (h2, m2, s2', ms2, _) <- timestamp u (lstrip_by isspace s2) ;;
  Some (h2, m2, s2', ms2).

(** The end time of a line, in seconds, when the line matches. *)
Definition end_time (u : unicode) (line : str) : option Q :=
  match time_re_match u (strip line) with
  | None => None
  | Some (h2, m2, s2, ms2) =>
      Some (inject_Z (h2 * 3600 + m2 * 60 + s2) + Qmake ms2 1000)%Q
  end.

(** The loop over the lines: [if t > last_end: last_end = t]. *)
Definition scan (u : unicode) (last_end : Q) (line : str) : Q :=
  match end_time u line with
  | None => last_end
  | Some t => if Qle_bool t last_end then last_end else t
  end.

(** [_parse_srt_duration(srt_path)], on the text of the file. *)
Definition _parse_srt_duration (u : unicode) (content : str) : Q :=
  let last_end := fold_left (scan u) (lines content) 0%Q in
  let last_end := if Qle_bool last_end 0 then 60%Q else last_end in
  (last_end + 1)%Q.

(** The end times of the lines of the file that match, in file order. *)
Definition end_times (u : unicode) (content : str) : list Q :=
  flat_map (fun line => match end_time u line with
                        | Some t => [t]
                        | None => []
                        end) (lines content).

End Srt.

(* ================================================================== *)
(** ** Recording controller *)

Module Recording.

(** What a thread runs. *)
Inductive target :=
| record_worker (output_wav_path : str) (stop_event : nat)
| _finish_recording_and_segment (rec_thread : nat) (wav_path : str)
    (lang_code : option str) (output_mode : str).

Record thread := { th_target : target; th_alive : bool }.

(** The variables of [start_gui] the recording buttons work on, with the
    threads and events created so far (a thread or an event is named by
    its position). *)
Record gui := {
  threads : list thread;
  events : list bool;                       (* is_set of each event *)
  config : AppConfig;
  status_var : str;
  record_thread : option nat;
  record_stop_event : option nat;
  current_recording_path : option str;
  printed : console
}.

Definition initial : gui :=
  {| threads := []; events := []; config := AppConfig_init;
     status_var := py "Overlay running. Not recording.";
     record_thread := None; record_stop_event := None;
     current_recording_path := None; printed := [] |}.

Definition is_alive (g : gui) (t : nat) : bool :=
  match nth_error (threads g) t with
  | Some th => th_alive th
  | None => false
  end.

(** [record_thread is not None and record_thread.is_alive()]. *)
Definition recording (g : gui) : bool :=
  match record_thread g with
  | Some t => is_alive g t
  | None => false
  end.

(** The sanitized episode name of [start_recording]. *)
Definition safe_name (u : unicode) (episode_name : str) : str :=
  let safe_name_chars :=
    List.map (fun c =>
      if isalnum u c || existsb (N.eqb c) (py "_-") then c else 95%N)
      episode_name in
  let safe_name := strip_chars (py "_") safe_name_chars in
  if truthy safe_name then safe_name else py "episode".

(** The class [[A-Za-z0-9_-]]. *)
Definition in_ascii_class (c : char) : bool :=
  ascii_isalnum c || (c =? 95)%N || (c =? 45)%N.

(** What the sanitizer lets through: [c.isalnum() or c in ("_", "-")]. *)
Definition kept (u : unicode) (c : char) : bool :=
  isalnum u c || existsb (N.eqb c) (py "_-").

Definition say (g : gui) (line : list pyarg) : gui :=
  {| threads := threads g; events := events g; config := config g;
     status_var := status_var g; record_thread := record_thread g;
     record_stop_event := record_stop_event g;
     current_recording_path := current_recording_path g;
     printed := printed g ++ [line] |}.

(** [start_recording()]; [answer] is what the dialog returns when it is
    shown ([None] when it is cancelled). *)
Definition start_recording (u : unicode) (answer : option str) (g : gui) : gui :=
  if recording g then say g [PStr (py "[RECORD] Already recording.")]
  else
    match answer with
    | None => g
    | Some episode_name =>
        if negb (truthy episode_name) then g
        else
          let name := safe_name u episode_name in
          let wav_path := path_join RECORDINGS_DIR (name ++ py ".wav") in
          let ev := length (events g) in
          let th := length (threads g) in
          {| threads := threads g
                        ++ [{| th_target := record_worker wav_path ev;
                               th_alive := true |}];
             events := events g ++ [false];
             config := config g;
             status_var := py "Recording: " ++ name ++ py ".wav";
             record_thread := Some th;
             record_stop_event := Some ev;
             current_recording_path := Some wav_path;
             printed := printed g |}
    end.

Fixpoint set_nth {A} (n : nat) (x : A) (l : list A) : list A :=
  match l, n with
  | [], _ => []
  | _ :: l', O => x :: l'
  | y :: l', S n' => y :: set_nth n' x l'
  end.

Inductive result := Returned (g : gui) | AssertionError.

(** [stop_recording()]. *)
Definition stop_recording (g : gui) : result :=
  if negb (recording g) then
    Returned (say g [PStr (py "[RECORD] No active recording.")])
  else
    match record_thread g, record_stop_event g, current_recording_path g with
    | Some rec_thread, Some ev, Some path =>
        Returned
          {| threads := threads g
                        ++ [{| th_target :=
                                 _finish_recording_and_segment rec_thread path
                                   (get_source_lang (config g))
                                   (get_output_mode (config g));
                               th_alive := true |}];
             events := set_nth ev true (events g);
             config := config g;
             status_var := py "Finishing recording and generating subtitles...";
             record_thread := None;
             record_stop_event := None;
             current_recording_path := None;
             printed := printed g |}
    | _, _, _ => AssertionError
    end.

(** A live thread comes to its end.  The recorder ends on the stop event,
    at the end of the stream or when audiotee is missing; the finishing
    pipeline ends once the recorder it joins has ended, and then resets
    the status line. *)
Definition may_exit (g : gui) (t : nat) : bool :=
  match nth_error (threads g) t with
  | Some {| th_target := record_worker _ _; th_alive := true |} => true
  | Some {| th_target := _finish_recording_and_segment r _ _ _;
            th_alive := true |} => negb (is_alive g r)
  | _ => false
  end.

Definition thread_exit (g : gui) (t : nat) : gui :=
  match nth_error (threads g) t with
  | Some th =>
      {| threads :=
           set_nth t {| th_target := th_target th; th_alive := false |} (threads g);
         events := events g; config := config g;
         status_var :=
           match th_target th with
           | record_worker _ _ => status_var g
           | _finish_recording_and_segment _ _ _ _ =>
               py "Overlay running. Not recording."
           end;
         record_thread := record_thread g;
         record_stop_event := record_stop_event g;
         current_recording_path := current_recording_path g;
         printed := printed g |}
  | None => g
  end.

Definition set_config (g : gui) (c : AppConfig) : gui :=
  {| threads := threads g; events := events g; config := c;
     status_var := status_var g; record_thread := record_thread g;
     record_stop_event := record_stop_event g;
     current_recording_path := current_recording_path g;
     printed := printed g |}.

(** While a recorder is referred to, so are its stop event and its path:
    the two assertions of [stop_recording] hold. *)
Definition well_formed (g : gui) : Prop :=
  record_thread g <> None ->
  record_stop_event g <> None /\ current_recording_path g <> None.

(** The states the window can be in. *)
Inductive reachable (u : unicode) : gui -> Prop :=
| reach_initial : reachable u initial
| reach_start g answer :
    reachable u g -> reachable u (start_recording u answer g)
| reach_stop g g' :
    reachable u g -> stop_recording g = Returned g' -> reachable u g'
| reach_exit g t :
    reachable u g -> may_exit g t = true -> reachable u (thread_exit g t)
| reach_config g c :
    reachable u g -> reachable u (set_config g c).

End Recording.

(* ================================================================== *)
(** ** Sample environments *)

Module Samples.

(** A machine on which every dependency is found. *)
Definition complete_host : host :=
  {| env_PATH := py "/usr/local/bin:/usr/bin";
     access_x := fun p => str_eqb p (py "/usr/local/bin/audiotee");
     isfile := fun p => str_eqb p WHISPER_BIN || str_eqb p WHISPER_MODEL |}.

(** An engine that fails and leaves nothing behind. *)
Definition failing_engine : segment_engine :=
  fun _ _ => {| returncode := 1; stdout := []; stderr := py "failed to load model ";
                files_after := [] |}.

(** An engine that writes its text file and then exits with status 1. *)
Definition late_failing_engine : segment_engine :=
  fun _ _ => {| returncode := 1; stdout := []; stderr := py "error on exit";
                files_after := [(py "/tmp/tmpab12.wav.txt", py " hello there ")] |}.

Definition failing_file_engine : file_engine :=
  fun _ => {| returncode := 3; stdout := []; stderr := py "bad wav";
              files_after := [] |}.

(** The text of a subtitle file that ends in a hallucinated credit. *)
Definition credits_srt : str :=
  py "1" ++ [10%N] ++ py "00:00:00,000 --> 00:00:02,000" ++ [10%N]
  ++ py "Thanks for watching!" ++ [10%N].

(** An engine that writes that subtitle file for the episode "ep". *)
Definition credits_file_engine : file_engine :=
  fun _ => {| returncode := 0; stdout := []; stderr := [];
              files_after := [(py "subtitles/ep_en.srt", credits_srt)] |}.

(** An engine that hears nothing and writes nothing. *)
Definition silent_engine : segment_engine :=
  fun _ _ => {| returncode := 0; stdout := []; stderr := []; files_after := [] |}.

(** The world of a worker that is never stopped, given what the pipe
    delivers. *)
Definition world_of (chunks : list (list byte)) : Live.world :=
  {| Live.machine := complete_host;
     Live.reads := chunks;
     Live.stop_is_set := fun _ => false;
     Live.config_at := fun _ => AppConfig_init;
     Live.tmp_name_at := fun _ => py "/tmp/tmpab12.wav";
     Live.engine_at := fun _ => silent_engine |}.

(** A full chunk of silence: two seconds, 64000 bytes. *)
Definition silence : list byte := repeat x00 (Z.to_nat Live.chunk_bytes).

(** A pipe that first delivers a single sample, then six full chunks. *)
Definition short_first_read : list (list byte) :=
  [x00; x00] :: repeat silence 6.

End Samples.

(* ================================================================== *)
(** ** Shapes of lists *)

Module Shapes.

(** Every element stands in [R] to the next one. *)
Fixpoint chain {A} (R : A -> A -> Prop) (l : list A) : Prop :=
  match l with
  | x :: (y :: _) as l' => R x y /\ chain R l'
  | _ => True
  end.

(** The first element of a list is below none of the others. *)
Definition head_least (s : list str) : Prop :=
  match s with
  | [] => True
  | p :: _ => forall q, In q s -> str_ltb q p = false
  end.

End Shapes.

(** ** The queue of the live worker *)

Module Queue.
Import Live Shapes.

(** What is queued is never empty, never the line queued just before, and
    [last_line] is the line queued last. *)
Definition queue_ok (st : loop_state) : Prop :=
  Forall (fun t => t <> []) (text_queue st)
  /\ chain (fun a b => a <> b) (text_queue st)
  /\ last_line st = last (text_queue st) [].

End Queue.

(* ================================================================== *)
(** ** Invariants of the recording controller *)

Module Controller.
Import Recording.

(** What the thread at position [t] runs. *)
Definition target_at (g : gui) (t : nat) : option target :=
  option_map th_target (nth_error (threads g) t).

(** The recorders that some finishing thread joins, in thread order. *)
Definition joined (ths : list thread) : list nat :=
  flat_map (fun th => match th_target th with
                      | _finish_recording_and_segment r _ _ _ => [r]
                      | record_worker _ _ => []
                      end) ths.

(** The three variables go together: they refer to a recorder thread, the
    path it writes and its stop event, which is not set; or to nothing. *)
Definition refs_ok (g : gui) : Prop :=
  match record_thread g with
  | Some t =>
      exists p e,
        target_at g t = Some (record_worker p e)
        /\ current_recording_path g = Some p
        /\ record_stop_event g = Some e
        /\ nth_error (events g) e = Some false
  | None => record_stop_event g = None /\ current_recording_path g = None
  end.

(** A finishing thread joins a recorder of the path it was given, whose
    stop event is set. *)
Definition finishers_ok (g : gui) : Prop :=
  forall i r p l m,
    target_at g i = Some (_finish_recording_and_segment r p l m) ->
    exists e, target_at g r = Some (record_worker p e)
              /\ nth_error (events g) e = Some true.

Definition invariant (g : gui) : Prop :=
  refs_ok g
  /\ finishers_ok g
  /\ NoDup (joined (threads g))
  /\ (forall t, record_thread g = Some t -> ~ In t (joined (threads g))).

End Controller.

(* ================================================================== *)
(** ** More sample states *)

Module MoreSamples.

(** The window after a recording "ep 1" was started and then stopped. *)
Definition stopped_once : Recording.gui :=
  match Recording.stop_recording
          (Recording.start_recording latin1 (Some (py "ep 1")) Recording.initial)
  with
  | Recording.Returned g => g
  | Recording.AssertionError => Recording.initial
  end.

End MoreSamples.

(* ================================================================== *)
(** ** The shape of a subtitle time line *)

Module SrtShape.

(** A non-empty run of the digits 0 to 9. *)
Definition digit_string (ds : str) : Prop :=
  ds <> [] /\ Forall (fun c => (48 <= c <= 57)%N) ds.

(** The number a run of digits denotes. *)
Definition digits_value (ds : str) : Z :=
  Srt.int_of_digits (List.map (fun c => Z.of_N c - 48) ds).

(** "h:m:s,ms" followed by [rest]. *)
Definition stamp (h m s ms rest : str) : str :=
  h ++ 58%N :: m ++ 58%N :: s ++ 44%N :: ms ++ rest.

(** What may follow a run of digits: nothing, or a character that is no
    digit. *)
Definition stops (u : unicode) (rest : str) : Prop :=
  match rest with
  | [] => True
  | c :: _ => decimal u c = None
  end.

End SrtShape.

(* ================================================================== *)
(** ** Recorder thread *)

Module Recorder.

(** [int(SAMPLE_RATE * rec_chunk_sec * bytes_per_sample)]. *)
Definition rec_chunk_sec : Q := 1 # 2.
Definition chunk_bytes : Z := py_int (inject_Z SAMPLE_RATE * rec_chunk_sec * 2).

(** What the recorder sees of the world: the machine, the successive
    results of [proc.stdout.read(chunk_bytes)] and the stop event at each
    test of the loop. *)
Record world := {
  machine : host;
  reads : list (list byte);
  stop_is_set : nat -> bool
}.

(** The WAV file: its parameters and the bytes given to [writeframes]. *)
Record wav := {
  nchannels : Z;
  sampwidth : Z;
  framerate : Z;
  frames : list byte
}.

(** [while not stop_event.is_set(): ...] at its [i]-th test; [written] is
    what [writeframes] was given so far. *)
Fixpoint record_loop (w : world) (i : nat) (rest : list (list byte))
    (written : list byte) : list byte * console :=
  if stop_is_set w i then (written, [])
  else
    match rest with
    | [] => (written, [[PStr (py "[RECORD] audiotee EOF")]])
    | raw :: rest' =>
        match raw with
        | [] => (written, [[PStr (py "[RECORD] audiotee EOF")]])
        | _ :: _ => record_loop w (S i) rest' (written ++ raw)
        end
    end.

Inductive result :=
| NoAudiotee                       (* returned before anything was opened *)
| FileNotFoundError                (* os.makedirs("") *)
| Recorded (file : wav).

(** [record_worker(output_wav_path, stop_event)].  [os.path.dirname] is
    empty exactly for a path without a slash, and [os.makedirs] refuses
    the empty path. *)
Definition record_worker (w : world) (output_wav_path : str)
  : result * console :=
  match which_exec (machine w) AUDIO_TEE_PATH with
  | None =>
      (NoAudiotee,
       [[PStr (py "[RECORD ERROR] audiotee not found at '"
               ++ AUDIO_TEE_PATH ++ py "'.")]])
  | Some audiotee_exe =>
      if negb (existsb (N.eqb 47%N) output_wav_path) then
        (FileNotFoundError, [])
      else
        let cmd := [audiotee_exe; py "--sample-rate"; py "16000";
                    py "--chunk-duration"; py "0.5"] in
        let '(written, out) := record_loop w 0 (reads w) [] in
        (Recorded {| nchannels := 1; sampwidth := 2; framerate := SAMPLE_RATE;
                     frames := written |},
         [[PStr (py "[RECORD] Starting audiotee:"); PStr (join_space cmd)]]
         ++ out
         ++ [[PStr (py "[RECORD] Finished. Saved to " ++ output_wav_path)]])
  end.

End Recorder.

(* ================================================================== *)
(** ** Subtitle video and finishing pipeline *)

Module Video.

(** [s.replace(old, new)] for a non-empty [old]; [skip] counts the
    characters of a found occurrence that are still to be passed over. *)
Fixpoint replace_from (old new : str) (skip : nat) (s : str) : str :=
  match s with
  | [] => []
  | c :: s' =>
      match skip with
      | S k => replace_from old new k s'
      | O => if startswith old s
             then new ++ replace_from old new (length old - 1) s'
             else c :: replace_from old new 0 s'
      end
  end.

Definition replace (old new s : str) : str := replace_from old new 0 s.

(** The path as the subtitles filter of ffmpeg wants it: backslashes,
    colons and quotes get a backslash in front. *)
Definition ff_srt_path (srt_path : str) : str :=
  replace [39%N] [92; 39]%N
    (replace [58%N] [92; 58]%N
       (replace [92%N] [92; 92]%N srt_path)).

(** What the three replacements do to one character. *)
Definition escape_char (x : N) : str :=
  if (x =? 92)%N then [92; 92]%N
  else if (x =? 58)%N then [92; 58]%N
  else if (x =? 39)%N then [92; 39]%N
  else [x].

(** Taking the backslashes away again. *)
Fixpoint unescape (s : str) : str :=
  match s with
  | [] => []
  | c :: s' =>
      if (c =? 92)%N then
        match s' with
        | c' :: s'' => c' :: unescape s''
        | [] => [c]
        end
      else c :: unescape s'
  end.

(** What the renderer's thread sees of the world: the machine, the text of
    the files, how a float is printed in an f-string, the run of ffmpeg
    and the character tables. *)
Record world := {
  machine : host;
  text_of : str -> str;
  float_str : Q -> str;
  ffmpeg : list str -> completed;
  tables : unicode
}.

(** The command line of [create_subtitle_video]. *)
Definition video_cmd (w : world) (ffmpeg_exe srt_path : str) : list str :=
  let duration := Srt._parse_srt_duration (tables w) (text_of w srt_path) in
  let base_name := fst (splitext (basename srt_path)) in
  let mp4_path := path_join VIDEO_DIR (base_name ++ py ".mp4") in
  let vf_expr :=
    py "subtitles=" ++ ff_srt_path srt_path ++ py ":"
    ++ py "force_style='Fontsize=32,PrimaryColour=&HFFFFFF&'" in
  [ ffmpeg_exe; py "-y"; py "-f"; py "lavfi"; py "-i";
    py "color=c=black:s=1280x720:d=" ++ float_str w duration;
    py "-vf"; vf_expr; py "-c:v"; py "libx264"; py "-pix_fmt"; py "yuv420p";
    mp4_path ].

(** [create_subtitle_video(srt_path)]. *)
Definition create_subtitle_video (w : world) (srt_path : str)
  : option str * console :=
  match which_exec (machine w) (py "ffmpeg") with
  | None => (None, [[PStr (py "[VIDEO ERROR] ffmpeg not found in PATH.")]])
  | Some ffmpeg_exe =>
      if negb (isfile (machine w) srt_path) then
        (None, [[PStr (py "[VIDEO ERROR] SRT not found:"); PStr srt_path]])
      else
        let base_name := fst (splitext (basename srt_path)) in
        let mp4_path := path_join VIDEO_DIR (base_name ++ py ".mp4") in
        let cmd := video_cmd w ffmpeg_exe srt_path in
        let out0 :=
          [[PStr (py "[VIDEO] Running ffmpeg to create subtitle video...")]] in
        let result := ffmpeg w cmd in
        if negb (returncode result =? 0) then
          (None, out0 ++ [[PStr (py "[VIDEO ERROR]");
                           PStr (strip (stderr result))]])
        else
          (Some mp4_path, out0 ++ [[PStr (py "[VIDEO] Created:"); PStr mp4_path]])
  end.

(** What [_finish_recording_and_segment] leaves behind once the recorder
    is joined: the message shown, the status line and what was printed. *)
Record finished := {
  message : str;
  status : str;
  printed : console
}.

(** [_finish_recording_and_segment(rec_thread, wav_path, lang_code,
    output_mode)], after [rec_thread.join()]. *)
Definition _finish_recording_and_segment (w : world) (engine : file_engine)
    (wav_path : str) (lang_code : option str) (output_mode : str) : finished :=
  let translate_to_english := str_eqb output_mode (py "english") in
  let '(srt_path, out1) :=
    segment_episode (machine w) engine wav_path lang_code translate_to_english in
  let '(video_path, out2) :=
    match srt_path with
    | Some srt => if truthy srt then create_subtitle_video w srt else (None, [])
    | None => (None, [])
    end in
  let nl := [10%N] in
  let saved := py "Recording saved:" ++ nl ++ wav_path ++ nl ++ nl in
  let msg :=
    match srt_path, video_path with
    | Some srt, Some video =>
        if truthy srt && truthy video then
          saved ++ py "Subtitles created:" ++ nl ++ srt ++ nl ++ nl
          ++ py "Subtitle video created:" ++ nl ++ video
        else if truthy srt then
          saved ++ py "Subtitles created:" ++ nl ++ srt ++ nl ++ nl
          ++ py "(Video creation failed; see console.)"
        else saved ++ py "(Subtitle generation failed; see console.)"
    | Some srt, None =>
        if truthy srt then
          saved ++ py "Subtitles created:" ++ nl ++ srt ++ nl ++ nl
          ++ py "(Video creation failed; see console.)"
        else saved ++ py "(Subtitle generation failed; see console.)"
    | None, _ => saved ++ py "(Subtitle generation failed; see console.)"
    end in
  {| message := msg;
     status := py "Overlay running. Not recording.";
     printed := [[PStr (py "[RECORD] Join complete.")]] ++ out1 ++ out2 |}.

End Video.

(* ================================================================== *)
(** ** Toolbar *)

Module Toolbar.

(** [LANG_DISPLAY_TO_CODE]. *)
Definition LANG_DISPLAY_TO_CODE : list (str * option str) :=
  [ (py "Auto-detect", None);
    (py "Hindi (hi)", Some (py "hi"));
    (py "Japanese (ja)", Some (py "ja"));
    (py "Korean (ko)", Some (py "ko"));
    (py "Chinese (zh)", Some (py "zh"));
    (py "Hebrew (he)", Some (py "he"));
    (py "Telugu (te)", Some (py "te"));
    (py "Kannada (kn)", Some (py "kn"));
    (py "English (en)", Some (py "en")) ].

(** [d.get(key)] on a dict whose values may be [None]. *)
Fixpoint dict_get (d : list (str * option str)) (key : str) : option str :=
  match d with
  | [] => None
  | (k, v) :: d' => if str_eqb k key then v else dict_get d' key
  end.

(** [on_output_change], given what the menu shows. *)
Definition on_output_change (choice : str) (config : AppConfig) : AppConfig :=
  if startswith (py "English") choice
  then set_output_mode config (py "english")
  else set_output_mode config (py "original").

(** [on_lang_change], given what the menu shows. *)
Definition on_lang_change (display : str) (config : AppConfig) : AppConfig :=
  set_source_lang config (dict_get LANG_DISPLAY_TO_CODE display).

(** [increase_font] and [decrease_font], on the font size. *)
Definition increase_font (font_size : Z) : Z := font_size + 2.
Definition decrease_font (font_size : Z) : Z := Z.max 8 (font_size - 2).

Inductive button := A_plus | A_minus.

Definition press (font_size : Z) (b : button) : Z :=
  match b with
  | A_plus => increase_font font_size
  | A_minus => decrease_font font_size
  end.

(** The font size the window starts with. *)
Definition font_size_init : Z := 18.

End Toolbar.

(* ================================================================== *)
(** ** A sample world for the finishing pipeline *)

Module Studio.

(** A machine with ffmpeg, the whisper binary and model, and the
    subtitle file of the episode "ep 1". *)
Definition studio_host : host :=
  {| env_PATH := py "/usr/local/bin";
     access_x := fun p => str_eqb p (py "/usr/local/bin/ffmpeg")
                          || str_eqb p (py "/usr/local/bin/audiotee");
     isfile := fun p => str_eqb p WHISPER_BIN || str_eqb p WHISPER_MODEL
                        || str_eqb p (py "subtitles/ep_1_en.srt") |}.

(** The engine writes the subtitle file of "ep 1". *)
Definition studio_engine : file_engine :=
  fun _ => {| returncode := 0; stdout := []; stderr := [];
              files_after := [(py "subtitles/ep_1_en.srt", Samples.credits_srt)] |}.

(** A renderer's world in which ffmpeg exits with the given status. *)
Definition studio (ffmpeg_status : Z) : Video.world :=
  {| Video.machine := studio_host;
     Video.text_of := fun _ => Samples.credits_srt;
     Video.float_str := fun _ => py "3.0";
     Video.ffmpeg := fun _ => {| returncode := ffmpeg_status; stdout := [];
                                 stderr := []; files_after := [] |};
     Video.tables := latin1 |}.

End Studio.

(* ================================================================== *)
(** * Properties *)

(** ** Strings *)

Lemma str_eqb_refl (a : str) : str_eqb a a = true.
Proof.
  induction a as [|x a IH]; simpl; [reflexivity|].
  now rewrite N.eqb_refl, IH.
Qed.

Lemma str_eqb_eq (a b : str) : str_eqb a b = true <-> a = b.
Proof.
  split; [|intros ->; apply str_eqb_refl].
  revert b; induction a as [|x a IH]; destruct b as [|y b]; simpl;
    try discriminate; [reflexivity|].
  intros H. apply andb_true_iff in H as [Hx Hab].
  apply N.eqb_eq in Hx. rewrite (IH _ Hab). now subst.
Qed.

Lemma str_eqb_neq (a b : str) : a <> b -> str_eqb a b = false.
Proof.
  intros H. destruct (str_eqb a b) eqn:E; [|reflexivity].
  now apply str_eqb_eq in E.
Qed.

Lemma truthy_nonempty (s : str) : s <> [] -> truthy s = true.
Proof. destruct s; [congruence | reflexivity]. Qed.

Lemma lstrip_by_Forall (P : char -> Prop) p s :
  Forall P s -> Forall P (lstrip_by p s).
Proof.
  induction 1 as [|c s Hc Hs IH]; simpl; [constructor|].
  destruct (p c); [assumption | now constructor].
Qed.

Lemma strip_by_Forall (P : char -> Prop) p s :
  Forall P s -> Forall P (strip_by p s).
Proof.
  intros H. unfold strip_by, rstrip_by.
  apply Forall_rev, lstrip_by_Forall, Forall_rev, lstrip_by_Forall, H.
Qed.

Lemma lstrip_by_all p s : forallb p s = true -> lstrip_by p s = [].
Proof.
  induction s as [|c s IH]; simpl; [reflexivity|].
  intros H. apply andb_true_iff in H as [-> Hs]. auto.
Qed.

Lemma strip_by_all p s : forallb p s = true -> strip_by p s = [].
Proof.
  intros H. unfold strip_by, rstrip_by. now rewrite (lstrip_by_all _ _ H).
Qed.

(** ** Dedup filter *)

(** C4. From the initial state (last line empty) a non-empty text offered
    twice in a row is forwarded once and then rejected; the empty text is
    rejected in every state and leaves the state as it is; and for two
    different non-empty texts, x, y, x are all three forwarded. *)
Theorem dedup_filter_laws (x y : str) :
  x <> [] -> y <> [] -> x <> y ->
  Live.accept_all [] [x; x] = [true; false]
  /\ (forall last, Live.accept last [] = (false, last))
  /\ Live.accept_all [] [x; y; x] = [true; true; true].
Proof.
  intros Hx Hy Hxy.
  assert (Hyx : y <> x) by congruence.
  assert (A0 : forall t, t <> [] -> Live.accept [] t = (true, t)).
  { intros t Ht. unfold Live.accept.
    rewrite (truthy_nonempty _ Ht), (str_eqb_neq _ _ Ht). reflexivity. }
  assert (A1 : forall l t, t <> [] -> t <> l -> Live.accept l t = (true, t)).
  { intros l t Ht Hl. unfold Live.accept.
    rewrite (truthy_nonempty _ Ht), (str_eqb_neq _ _ Hl). reflexivity. }
  assert (A2 : forall t, Live.accept t t = (false, t)).
  { intros t. unfold Live.accept. rewrite str_eqb_refl, andb_false_r.
    reflexivity. }
  repeat split.
  - simpl. now rewrite (A0 _ Hx), A2.
  - simpl. now rewrite (A0 _ Hx), (A1 _ _ Hy Hyx), (A1 _ _ Hx Hxy).
Qed.

Lemma dedup_filter_laws_witness :
  py "hello" <> [] /\ py "world" <> [] /\ py "hello" <> py "world"
  /\ Live.accept_all [] [py "hello"; py "hello"] = [true; false]
  /\ (forall last, Live.accept last [] = (false, last))
  /\ Live.accept_all [] [py "hello"; py "world"; py "hello"] = [true; true; true].
Proof.
  assert (H1 : py "hello" <> []) by (vm_compute; discriminate).
  assert (H2 : py "world" <> []) by (vm_compute; discriminate).
  assert (H3 : py "hello" <> py "world") by (vm_compute; discriminate).
  split; [exact H1|]. split; [exact H2|]. split; [exact H3|].
  exact (dedup_filter_laws (py "hello") (py "world") H1 H2 H3).
Defined.

(** ** Episode name *)

Lemma kept_ascii u c :
  (c < 128)%N -> Recording.kept u c = true -> Recording.in_ascii_class c = true.
Proof.
  intros Hc. unfold Recording.kept, Recording.in_ascii_class, isalnum.
  apply N.ltb_lt in Hc. rewrite Hc. simpl.
  rewrite !orb_false_r. now rewrite orb_assoc.
Qed.

Lemma safe_name_kept u name :
  Forall (fun c => Recording.kept u c = true) (Recording.safe_name u name).
Proof.
  unfold Recording.safe_name.
  set (chars := List.map _ name).
  assert (Hm : Forall (fun c => Recording.kept u c = true) chars).
  { subst chars. apply Forall_forall. intros c Hc.
    apply in_map_iff in Hc as (c0 & <- & _).
    fold (Recording.kept u c0).
    destruct (Recording.kept u c0) eqn:E; [exact E|].
    unfold Recording.kept, isalnum. reflexivity. }
  destruct (truthy _).
  - unfold strip_chars. now apply strip_by_Forall.
  - unfold Recording.kept, isalnum. vm_compute. repeat constructor.
Qed.

Lemma safe_name_ascii u name :
  Forall (fun c => (c < 128)%N) name ->
  Forall (fun c => (c < 128)%N) (Recording.safe_name u name).
Proof.
  intros H. unfold Recording.safe_name.
  destruct (truthy _) eqn:E.
  - unfold strip_chars. apply strip_by_Forall.
    apply Forall_forall. intros c Hc.
    apply in_map_iff in Hc as (c0 & <- & Hin).
    destruct (_ || _); [|reflexivity].
    rewrite Forall_forall in H. now apply H.
  - vm_compute. repeat constructor.
Qed.

(** C8 (amended). The sanitized name holds only characters that
    [str.isalnum] accepts, underscores and dashes; when the name given is
    ASCII these are the characters of [[A-Za-z0-9_-]]; "doraemon 877!"
    gives "doraemon_877"; and a name made only of characters that are not
    let through (or of underscores) gives "episode". *)
Theorem safe_name_charset (u : unicode) (name : str) :
  Forall (fun c => Recording.kept u c = true) (Recording.safe_name u name)
  /\ (Forall (fun c => (c < 128)%N) name ->
      Forall (fun c => Recording.in_ascii_class c = true)
             (Recording.safe_name u name))
  /\ Recording.safe_name u (py "doraemon 877!") = py "doraemon_877"
  /\ (Forall (fun c => Recording.kept u c = false \/ c = 95%N) name ->
      Recording.safe_name u name = py "episode").
Proof.
  split; [apply safe_name_kept|].
  split.
  { intros Ha.
    pose proof (safe_name_kept u name) as Hk.
    pose proof (safe_name_ascii u name Ha) as Hs.
    rewrite Forall_forall in *. intros c Hc.
    apply (kept_ascii u); auto. }
  split; [vm_compute; reflexivity|].
  intros Hd. unfold Recording.safe_name.
  replace (strip_chars _ _) with (@nil char); [reflexivity|].
  symmetry. apply strip_by_all.
  apply forallb_forall. intros c Hc.
  apply in_map_iff in Hc as (c0 & <- & Hin).
  rewrite Forall_forall in Hd. specialize (Hd _ Hin).
  fold (Recording.kept u c0).
  destruct Hd as [-> | ->]; reflexivity.
Qed.

Lemma safe_name_charset_witness :
  Forall (fun c => (c < 128)%N) (py "ep 1/2")
  /\ Forall (fun c => Recording.kept latin1 c = false \/ c = 95%N) (py "?! _")
  /\ Forall (fun c => Recording.in_ascii_class c = true)
            (Recording.safe_name latin1 (py "ep 1/2"))
  /\ Recording.safe_name latin1 (py "?! _") = py "episode".
Proof.
  assert (H1 : Forall (fun c => (c < 128)%N) (py "ep 1/2"))
    by (vm_compute; repeat constructor).
  assert (H2 : Forall (fun c => Recording.kept latin1 c = false \/ c = 95%N)
                      (py "?! _"))
    by (vm_compute; repeat constructor; auto).
  split; [exact H1|]. split; [exact H2|].
  split.
  - exact (proj1 (proj2 (safe_name_charset latin1 (py "ep 1/2"))) H1).
  - exact (proj2 (proj2 (proj2 (safe_name_charset latin1 (py "?! _")))) H2).
Defined.

(** C8 as stated fails: a letter beyond ASCII is alphanumeric for
    [str.isalnum] and is kept. *)
Lemma safe_name_keeps_e_acute :
  Recording.safe_name latin1 [233%N] = [233%N]
  /\ ~ Forall (fun c => Recording.in_ascii_class c = true)
              (Recording.safe_name latin1 [233%N]).
Proof.
  split; [reflexivity|].
  intros H. inversion H as [|c l Hc Hl]. discriminate Hc.
Qed.

(** ** Subtitle duration *)

Section ScanLines.

Variable u : unicode.

Let ends (ls : list str) : list Q :=
  flat_map (fun line => match Srt.end_time u line with
                        | Some t => [t]
                        | None => []
                        end) ls.

(** The loop keeps the largest end time seen so far. *)
Lemma scan_fold (ls : list str) (a : Q) :
  let r := fold_left (Srt.scan u) ls a in
  (a <= r)%Q
  /\ (forall t, In t (ends ls) -> (t <= r)%Q)
  /\ (r = a \/ In r (ends ls)).
Proof.
  revert a. induction ls as [|l ls IH]; intros a.
  - simpl. split; [apply Qle_refl|]. split; [intros t []|now left].
  - cbv zeta. change (fold_left (Srt.scan u) (l :: ls) a)
      with (fold_left (Srt.scan u) ls (Srt.scan u a l)).
    destruct (IH (Srt.scan u a l)) as (H1 & H2 & H3).
    set (r := fold_left (Srt.scan u) ls (Srt.scan u a l)) in *.
    unfold ends; simpl; fold (ends ls).
    unfold Srt.scan in H1, H3.
    destruct (Srt.end_time u l) as [t|]; [|now repeat split].
    destruct (Qle_bool t a) eqn:E.
    + apply Qle_bool_iff in E.
      split; [exact H1|]. split.
      * intros t' [<- | Ht']; [now apply Qle_trans with a | now apply H2].
      * destruct H3 as [H3 | H3]; [now left | right; now right].
    + assert (Hat : (a <= t)%Q).
      { apply Qlt_le_weak, Qnot_le_lt. intros C.
        apply Qle_bool_iff in C. congruence. }
      split; [now apply Qle_trans with t|]. split.
      * intros t' [<- | Ht']; [exact H1 | now apply H2].
      * right. destruct H3 as [H3 | H3]; [left; now symmetry | now right].
Qed.

End ScanLines.




(** ** Transcription adapter *)

Lemma lstrip_by_idem p s : lstrip_by p (lstrip_by p s) = lstrip_by p s.
Proof.
  induction s as [|c s IH]; simpl; [reflexivity|].
  destruct (p c) eqn:E; [exact IH|]. simpl. now rewrite E.
Qed.

Lemma lstrip_by_head p s :
  lstrip_by p s = [] \/ exists c t, lstrip_by p s = c :: t /\ p c = false.
Proof.
  induction s as [|c s IH]; simpl; [now left|].
  destruct (p c) eqn:E; [exact IH|]. right. now exists c, s.
Qed.

Lemma lstrip_by_snoc p l c :
  p c = false -> lstrip_by p (l ++ [c]) = lstrip_by p l ++ [c].
Proof.
  intros Hc. induction l as [|x l IH]; simpl; [now rewrite Hc|].
  destruct (p x); [exact IH | reflexivity].
Qed.

Lemma rstrip_by_cons p c t :
  p c = false -> rstrip_by p (c :: t) = c :: rstrip_by p t.
Proof.
  intros Hc. unfold rstrip_by. simpl.
  rewrite (lstrip_by_snoc _ _ _ Hc), rev_app_distr. reflexivity.
Qed.

Lemma rstrip_by_idem p s : rstrip_by p (rstrip_by p s) = rstrip_by p s.
Proof.
  unfold rstrip_by. now rewrite rev_involutive, lstrip_by_idem.
Qed.

(** A stripped string has nothing left to strip. *)
Lemma strip_by_idem p s : strip_by p (strip_by p s) = strip_by p s.
Proof.
  unfold strip_by.
  destruct (lstrip_by_head p s) as [-> | (c & t & -> & Hc)]; [reflexivity|].
  rewrite (rstrip_by_cons _ _ _ Hc). simpl. rewrite Hc.
  rewrite <- (rstrip_by_cons _ _ _ Hc). apply rstrip_by_idem.
Qed.

Lemma insert_sorted_In x y l : In y (insert_sorted x l) -> y = x \/ In y l.
Proof.
  induction l as [|z l IH]; simpl.
  - intros [<- | []]. now left.
  - destruct (str_ltb z x); simpl.
    + intros [<- | H]; [right; now left|].
      destruct (IH H) as [-> | H']; [now left | right; now right].
    + intros [<- | H]; [now left | now right].
Qed.

Lemma sorted_In y l : In y (sorted l) -> In y l.
Proof.
  induction l as [|x l IH]; simpl; [tauto|].
  intros H. apply insert_sorted_In in H as [-> | H]; [now left|].
  right. now apply IH.
Qed.

Lemma read_text_In fs p : In p (List.map fst fs) -> isfile_in fs p = true.
Proof.
  unfold isfile_in. induction fs as [|[q c] fs IH]; simpl; [tauto|].
  intros [-> | H].
  - now rewrite str_eqb_refl.
  - destruct (str_eqb q p); [reflexivity | now apply IH].
Qed.

Lemma glob_srt_In fs prefix p :
  In p (glob_srt fs prefix) -> isfile_in fs p = true.
Proof.
  unfold glob_srt. intros H. apply read_text_In.
  apply in_map_iff in H as (f & <- & Hf).
  apply filter_In in Hf as [Hf _]. now apply in_map.
Qed.

(** C6 (amended). When the engine exits with a non-zero status and has
    left no text file, segment mode prints the error and returns the empty
    string; when the engine exits with a non-zero status in file mode,
    [segment_episode] returns no path, and prints the status once the
    engine was run. *)
Theorem engine_failure_contained
    (engine : segment_engine) (wav_path : str) (segment : list sample)
    (output_mode : str) (lang_code : option str)
    (h : host) (file_eng : file_engine) (episode_wav : str)
    (episode_lang : option str) (translate : bool) :
  let r := engine (segment_cmd wav_path output_mode lang_code) segment in
  let r' := file_eng (episode_cmd episode_wav episode_lang translate) in
  returncode r <> 0 ->
  read_text (files_after r) (wav_path ++ py ".txt") = None ->
  returncode r' <> 0 ->
  run_whisper_cpp engine wav_path segment output_mode lang_code
    = ([], [[PStr (py "[whisper.cpp ERROR]"); PStr (strip (stderr r))]])
  /\ fst (segment_episode h file_eng episode_wav episode_lang translate) = None
  /\ (isfile h WHISPER_BIN = true -> isfile h WHISPER_MODEL = true ->
      exists out,
        snd (segment_episode h file_eng episode_wav episode_lang translate)
        = out ++ [[PStr (py "[SEGMENT ERROR] whisper.cpp returned non-zero exit code:");
                   PInt (returncode r')]]).
Proof.
  intros r r' Hr Hfile Hr'.
  apply Z.eqb_neq in Hr, Hr'.
  split; [|split].
  - unfold run_whisper_cpp. fold r. rewrite Hr, Hfile. reflexivity.
  - unfold segment_episode. fold r'.
    destruct (isfile h WHISPER_BIN); [|reflexivity].
    destruct (isfile h WHISPER_MODEL); [|reflexivity].
    simpl negb at 1 2. cbv iota. rewrite Hr'. reflexivity.
  - intros Hb Hm. unfold segment_episode. fold r'.
    rewrite Hb, Hm. simpl negb at 1 2. cbv iota. rewrite Hr'.
    simpl negb. cbv iota. eexists. reflexivity.
Qed.

Lemma engine_failure_contained_witness :
  let r := Samples.failing_engine
             (segment_cmd (py "/tmp/tmpab12.wav") (py "english") None) [] in
  let r' := Samples.failing_file_engine
              (episode_cmd (py "recordings/ep.wav") None true) in
  returncode r <> 0
  /\ read_text (files_after r) (py "/tmp/tmpab12.wav" ++ py ".txt") = None
  /\ returncode r' <> 0
  /\ run_whisper_cpp Samples.failing_engine (py "/tmp/tmpab12.wav") []
       (py "english") None
     = ([], [[PStr (py "[whisper.cpp ERROR]"); PStr (strip (stderr r))]])
  /\ fst (segment_episode Samples.complete_host Samples.failing_file_engine
            (py "recordings/ep.wav") None true) = None.
Proof.
  intros r r'.
  assert (H1 : returncode r <> 0) by (vm_compute; discriminate).
  assert (H2 : read_text (files_after r) (py "/tmp/tmpab12.wav" ++ py ".txt") = None)
    by reflexivity.
  assert (H3 : returncode r' <> 0) by (vm_compute; discriminate).
  split; [exact H1|]. split; [exact H2|]. split; [exact H3|].
  pose proof (engine_failure_contained Samples.failing_engine
                (py "/tmp/tmpab12.wav") [] (py "english") None
                Samples.complete_host Samples.failing_file_engine
                (py "recordings/ep.wav") None true H1 H2 H3) as (A & B & _).
  split; [exact A | exact B].
Defined.

(** C6 as stated fails in segment mode: the status is only printed, and
    the text of a file the engine left behind is returned all the same. *)
Lemma run_whisper_cpp_nonzero_with_text :
  returncode (Samples.late_failing_engine
                (segment_cmd (py "/tmp/tmpab12.wav") (py "english") None) []) <> 0
  /\ fst (run_whisper_cpp Samples.late_failing_engine (py "/tmp/tmpab12.wav") []
            (py "english") None) = py "hello there"
  /\ fst (run_whisper_cpp Samples.late_failing_engine (py "/tmp/tmpab12.wav") []
            (py "english") None) <> [].
Proof.
  split; [vm_compute; discriminate|].
  split; [reflexivity | vm_compute; discriminate].
Qed.



(** One pass per phrase: a phrase of the denylist can be put together by
    the removal of a later one, and then stays. *)
Remark remove_garbage_is_one_pass :
  strip (remove_garbage (py "Thanks for wat*music*ching!"))
  = py "Thanks for watching!".
Proof. reflexivity. Qed.


(** ** Recording controller *)

Module RecordingFacts.
Import Recording.

Lemma start_recording_well_formed u answer g :
  well_formed g -> well_formed (start_recording u answer g).
Proof.
  intros Hg. unfold start_recording.
  destruct (recording g); [exact Hg|].
  destruct answer as [name|]; [|exact Hg].
  destruct (negb (truthy name)); [exact Hg|].
  intros _. simpl. split; discriminate.
Qed.

Lemma stop_recording_well_formed g g' :
  well_formed g -> stop_recording g = Returned g' -> well_formed g'.
Proof.
  intros Hg. unfold stop_recording.
  destruct (negb (recording g)).
  - intros [= <-]. exact Hg.
  - destruct (record_thread g), (record_stop_event g),
      (current_recording_path g); try discriminate.
    intros [= <-]. intros H. now simpl in H.
Qed.

Lemma thread_exit_well_formed g t :
  well_formed g -> well_formed (thread_exit g t).
Proof.
  intros Hg. unfold thread_exit.
  destruct (nth_error (threads g) t); exact Hg.
Qed.

Lemma reachable_well_formed u g : reachable u g -> well_formed g.
Proof.
  induction 1 as [|g answer _ IH|g g' _ IH Hs|g t _ IH _|g c _ IH].
  - intros H. now simpl in H.
  - now apply start_recording_well_formed.
  - now apply (stop_recording_well_formed g).
  - now apply thread_exit_well_formed.
  - exact IH.
Qed.

Lemma nth_error_snoc {A} (l : list A) (x : A) :
  nth_error (l ++ [x]) (length l) = Some x.
Proof.
  rewrite nth_error_app2 by apply Nat.le_refl.
  now rewrite Nat.sub_diag.
Qed.

Lemma nth_error_snoc_old {A} (l : list A) (x y : A) n :
  nth_error l n = Some y -> nth_error (l ++ [x]) n = Some y.
Proof.
  intros H. rewrite nth_error_app1; [exact H|].
  apply nth_error_Some. congruence.
Qed.

Lemma start_recording_fresh u name g :
  recording g = false -> name <> [] ->
  threads (start_recording u (Some name) g)
  = threads g
    ++ [{| th_target :=
             record_worker
               (path_join RECORDINGS_DIR (safe_name u name ++ py ".wav"))
               (length (events g));
           th_alive := true |}]
  /\ record_thread (start_recording u (Some name) g) = Some (length (threads g)).
Proof.
  intros Hrec Hname. unfold start_recording.
  rewrite Hrec, (truthy_nonempty _ Hname). split; reflexivity.
Qed.

End RecordingFacts.

(** C9. In every reachable state, [start_recording] while a recording is
    active only prints that it is already recording: no thread is started
    and the session stays the active one; and [stop_recording] while no
    recording is active only prints that there is none: no finishing
    thread is started and nothing else changes. *)
Theorem start_stop_noop (u : unicode) (g : Recording.gui)
    (answer : option str) :
  Recording.reachable u g ->
  (Recording.recording g = true ->
     let g' := Recording.start_recording u answer g in
     g' = Recording.say g [PStr (py "[RECORD] Already recording.")]
     /\ Recording.threads g' = Recording.threads g
     /\ Recording.events g' = Recording.events g
     /\ Recording.record_thread g' = Recording.record_thread g
     /\ Recording.recording g' = true)
  /\ (Recording.recording g = false ->
      Recording.stop_recording g
      = Recording.Returned
          (Recording.say g [PStr (py "[RECORD] No active recording.")])
      /\ Recording.threads
           (Recording.say g [PStr (py "[RECORD] No active recording.")])
         = Recording.threads g).
Proof.
  intros _. split.
  - intros Hrec. cbv zeta. unfold Recording.start_recording. rewrite Hrec.
    repeat split. exact Hrec.
  - intros Hrec. unfold Recording.stop_recording. rewrite Hrec.
    split; reflexivity.
Qed.

Lemma start_stop_noop_witness :
  let g := Recording.start_recording latin1 (Some (py "ep 1")) Recording.initial in
  Recording.reachable latin1 g
  /\ Recording.recording g = true
  /\ Recording.start_recording latin1 (Some (py "ep 2")) g
     = Recording.say g [PStr (py "[RECORD] Already recording.")]
  /\ Recording.reachable latin1 Recording.initial
  /\ Recording.recording Recording.initial = false
  /\ Recording.stop_recording Recording.initial
     = Recording.Returned
         (Recording.say Recording.initial
            [PStr (py "[RECORD] No active recording.")]).
Proof.
  intros g.
  assert (R0 : Recording.reachable latin1 Recording.initial)
    by apply Recording.reach_initial.
  assert (R1 : Recording.reachable latin1 g)
    by (apply Recording.reach_start; exact R0).
  assert (A1 : Recording.recording g = true) by reflexivity.
  assert (A0 : Recording.recording Recording.initial = false) by reflexivity.
  split; [exact R1|]. split; [exact A1|].
  split.
  - exact (proj1 (proj1 (start_stop_noop latin1 g (Some (py "ep 2")) R1) A1)).
  - split; [exact R0|]. split; [exact A0|].
    exact (proj1 (proj2 (start_stop_noop latin1 Recording.initial None R0) A0)).
Defined.

(** C10. When [stop_recording] returns from an active recording, the
    thread, the stop event and the path are no longer referred to and the
    finishing thread runs; a [start_recording] with a name then starts a
    new recorder at once, while that finishing thread is still running. *)
Theorem start_after_stop (u : unicode) (g : Recording.gui) (name : str) :
  Recording.reachable u g ->
  Recording.recording g = true ->
  name <> [] ->
  exists g',
    Recording.stop_recording g = Recording.Returned g'
    /\ Recording.record_thread g' = None
    /\ Recording.record_stop_event g' = None
    /\ Recording.current_recording_path g' = None
    /\ Recording.is_alive g' (length (Recording.threads g)) = true
    /\ let g'' := Recording.start_recording u (Some name) g' in
       let finisher := length (Recording.threads g) in
       let recorder := S (length (Recording.threads g)) in
       Recording.record_thread g'' = Some recorder
       /\ nth_error (Recording.threads g'') recorder
          = Some {| Recording.th_target :=
                      Recording.record_worker
                        (path_join RECORDINGS_DIR
                           (Recording.safe_name u name ++ py ".wav"))
                        (length (Recording.events g'));
                    Recording.th_alive := true |}
       /\ Recording.recording g'' = true
       /\ Recording.is_alive g'' finisher = true
       /\ (exists r p l m,
             option_map Recording.th_target
               (nth_error (Recording.threads g'') finisher)
             = Some (Recording._finish_recording_and_segment r p l m)).
Proof.
  intros Hreach Hrec Hname.
  pose proof (RecordingFacts.reachable_well_formed u g Hreach) as Hwf.
  unfold Recording.stop_recording. rewrite Hrec. simpl negb. cbv iota.
  unfold Recording.recording in Hrec.
  destruct (Recording.record_thread g) as [t|] eqn:Et; [|discriminate].
  destruct Hwf as [He Hp]; [rewrite Et; discriminate|].
  destruct (Recording.record_stop_event g) as [e|]; [|congruence].
  destruct (Recording.current_recording_path g) as [p|]; [|congruence].
  set (h := {| Recording.th_target :=
                 Recording._finish_recording_and_segment t p
                   (get_source_lang (Recording.config g))
                   (get_output_mode (Recording.config g));
               Recording.th_alive := true |}).
  match goal with |- exists g', Recording.Returned ?x = _ /\ _ => set (g1 := x) end.
  exists g1. split; [reflexivity|].
  split; [reflexivity|]. split; [reflexivity|]. split; [reflexivity|].
  assert (Hth : Recording.threads g1 = Recording.threads g ++ [h]) by reflexivity.
  assert (Hlen : length (Recording.threads g1) = S (length (Recording.threads g))).
  { rewrite Hth, length_app. simpl. lia. }
  assert (Hidle : Recording.recording g1 = false) by reflexivity.
  destruct (RecordingFacts.start_recording_fresh u name g1 Hidle Hname)
    as [Hth2 Hrt2].
  split.
  { unfold Recording.is_alive. rewrite Hth.
    now rewrite RecordingFacts.nth_error_snoc. }
  cbv zeta.
  set (r := {| Recording.th_target := Recording.record_worker _ _;
               Recording.th_alive := true |}) in Hth2.
  assert (Hnew : nth_error (Recording.threads g1 ++ [r])
                   (S (length (Recording.threads g))) = Some r).
  { rewrite <- Hlen. apply RecordingFacts.nth_error_snoc. }
  assert (Hold : nth_error (Recording.threads g1 ++ [r])
                   (length (Recording.threads g)) = Some h).
  { rewrite Hth. apply RecordingFacts.nth_error_snoc_old.
    apply RecordingFacts.nth_error_snoc. }
  rewrite <- Hth2 in Hnew, Hold.
  assert (Hrt3 : Recording.record_thread
                   (Recording.start_recording u (Some name) g1)
                 = Some (S (length (Recording.threads g))))
    by exact (eq_trans Hrt2 (f_equal Some Hlen)).
  split; [exact Hrt3|].
  split; [exact Hnew|].
  split.
  { unfold Recording.recording. rewrite Hrt3.
    unfold Recording.is_alive. rewrite Hnew. reflexivity. }
  split.
  - unfold Recording.is_alive. rewrite Hold. reflexivity.
  - exists t, p, (get_source_lang (Recording.config g)),
      (get_output_mode (Recording.config g)).
    rewrite Hold. reflexivity.
Qed.

Lemma start_after_stop_witness :
  let g := Recording.start_recording latin1 (Some (py "ep 1")) Recording.initial in
  Recording.reachable latin1 g
  /\ Recording.recording g = true
  /\ py "ep 2" <> []
  /\ exists g',
       Recording.stop_recording g = Recording.Returned g'
       /\ Recording.record_thread g' = None
       /\ Recording.record_thread
            (Recording.start_recording latin1 (Some (py "ep 2")) g') = Some 2%nat.
Proof.
  intros g.
  assert (R1 : Recording.reachable latin1 g)
    by (apply Recording.reach_start, Recording.reach_initial).
  assert (A1 : Recording.recording g = true) by reflexivity.
  assert (N : py "ep 2" <> []) by (vm_compute; discriminate).
  split; [exact R1|]. split; [exact A1|]. split; [exact N|].
  destruct (start_after_stop latin1 g (py "ep 2") R1 A1 N)
    as (g' & Hs & Ht & _ & _ & _ & Hn & _).
  exists g'. split; [exact Hs|]. split; [exact Ht|]. exact Hn.
Defined.

(** ** Live segmentation loop *)

Module LiveFacts.
Import Live.

Lemma frombuffer_i2_length raw pcm :
  frombuffer_i2 raw = Some pcm -> (length raw = 2 * length pcm)%nat.
Proof.
  revert raw. induction pcm as [|v pcm IH]; intros raw.
  - destruct raw as [|lo [|hi raw]]; simpl; try discriminate; [reflexivity|].
    destruct (frombuffer_i2 raw); discriminate.
  - destruct raw as [|lo [|hi raw]]; simpl; try discriminate.
    destruct (frombuffer_i2 raw) as [l|] eqn:E; [|discriminate].
    intros [= _ ->]. rewrite (IH raw E). lia.
Qed.

Lemma frombuffer_i2_even n raw :
  (length raw = 2 * n)%nat ->
  exists pcm, frombuffer_i2 raw = Some pcm /\ length pcm = n.
Proof.
  revert raw. induction n as [|n IH]; intros raw H.
  - destruct raw; [|discriminate]. now exists [].
  - destruct raw as [|lo [|hi raw]]; simpl in H; try lia.
    destruct (IH raw) as (pcm & E & L); [lia|].
    exists (i16_of_bytes lo hi :: pcm). simpl. rewrite E, L. now split.
Qed.

Lemma to_float_length pcm : length (to_float pcm) = length pcm.
Proof. apply length_map. Qed.

Section Sizes.

Variables seg step : Z.
Variable w : world.
Hypothesis step_pos : 0 < step.
Hypothesis step_le_seg : step <= seg.

Lemma slice_to_length (b : list sample) :
  seg <= Z.of_nat (length b) ->
  Z.of_nat (length (slice_to seg b)) = seg.
Proof.
  intros H. unfold slice_to.
  destruct (0 <=? seg) eqn:E; [|apply Z.leb_gt in E; lia].
  rewrite length_firstn. lia.
Qed.

Lemma slice_to_firstn (b : list sample) :
  slice_to seg b = firstn (Z.to_nat seg) b.
Proof.
  unfold slice_to. destruct (0 <=? seg) eqn:E; [reflexivity|].
  apply Z.leb_gt in E. lia.
Qed.

Lemma slice_from_skipn (b : list sample) :
  slice_from step b = skipn (Z.to_nat step) b.
Proof.
  unfold slice_from. destruct (0 <=? step) eqn:E; [reflexivity|].
  apply Z.leb_gt in E. lia.
Qed.

Lemma slice_from_length (b : list sample) :
  seg <= Z.of_nat (length b) ->
  Z.of_nat (length (slice_from step b)) = Z.of_nat (length b) - step.
Proof.
  intros H. rewrite slice_from_skipn, length_skipn. lia.
Qed.

(** What one emission does to the fields the sizes depend on. *)
Lemma emit_fields (st : loop_state) :
  buffer (emit seg step w st) = slice_from step (buffer st)
  /\ dropped (emit seg step w st)
     = dropped st + (Z.of_nat (length (buffer st))
                     - Z.of_nat (length (slice_from step (buffer st))))
  /\ calls (emit seg step w st)
     = calls st
       ++ [{| em_segment := slice_to seg (buffer st);
              em_offset := dropped st;
              em_buffered := Z.of_nat (length (buffer st));
              em_retained := Z.of_nat (length (slice_from step (buffer st))) |}].
Proof.
  unfold emit.
  destruct (run_whisper_cpp _ _ _ _ _) as [text out].
  destruct (accept _ _) as [forwarded last']. repeat split.
Qed.

Lemma emit_log_ok (st : loop_state) :
  seg <= Z.of_nat (length (buffer st)) ->
  log_ok seg step st -> log_ok seg step (emit seg step w st).
Proof.
  intros Hlen (Hd & Hm & Hc).
  destruct (emit_fields st) as (Eb & Ed & Ec).
  pose proof (slice_from_length _ Hlen) as Hs.
  unfold log_ok.
  rewrite Ed, Ec, length_app, Nat.add_1_r, seq_S, !map_app, Hs.
  split; [lia|]. split.
  - rewrite <- Hm. simpl. now rewrite Hd.
  - apply Forall_app. split; [exact Hc|].
    constructor; [|constructor]. simpl.
    rewrite (slice_to_length _ Hlen). repeat split; lia.
Qed.

Lemma drain_log_ok fuel : forall st st',
  log_ok seg step st -> drain seg step w fuel st = Some st' ->
  log_ok seg step st' /\ Z.of_nat (length (buffer st')) < seg.
Proof.
  induction fuel as [|fuel IH]; intros st st' Hok; simpl;
    destruct (Z.of_nat (length (buffer st)) >=? seg) eqn:E;
    try discriminate.
  - intros [= <-]. split; [exact Hok|].
    rewrite Z.geb_leb in E. apply Z.leb_gt in E. exact E.
  - apply IH, emit_log_ok; [|exact Hok].
    rewrite Z.geb_leb in E. now apply Z.leb_le.
  - intros [= <-]. split; [exact Hok|].
    rewrite Z.geb_leb in E. apply Z.leb_gt in E. exact E.
Qed.

(** The inner loop ends: every emission shortens the buffer. *)
Lemma drain_total fuel : forall st,
  (length (buffer st) < fuel)%nat ->
  exists st', drain seg step w fuel st = Some st'.
Proof.
  induction fuel as [|fuel IH]; intros st Hf; [lia|]. simpl.
  destruct (Z.of_nat (length (buffer st)) >=? seg) eqn:E; [|now exists st].
  rewrite Z.geb_leb in E. apply Z.leb_le in E.
  apply IH. destruct (emit_fields st) as (-> & _ & _).
  pose proof (slice_from_length _ E). lia.
Qed.

Lemma loop_nil i st :
  loop seg step w i [] st
  = if stop_is_set w i then StopRequested st
    else EndOfStream (say st [PStr (py "[INFO] audiotee EOF")]).
Proof. reflexivity. Qed.

Lemma loop_cons i raw rest st :
  loop seg step w i (raw :: rest) st
  = if stop_is_set w i then StopRequested st
    else match raw with
         | [] => EndOfStream (say st [PStr (py "[INFO] audiotee EOF")])
         | _ :: _ =>
             match frombuffer_i2 raw with
             | None => ValueError st
             | Some pcm_i16 =>
                 let st1 := concatenate st (to_float pcm_i16) in
                 match drain seg step w (S (length (buffer st1))) st1 with
                 | None => Diverges
                 | Some st2 => loop seg step w (S i) rest st2
                 end
             end
         end.
Proof. reflexivity. Qed.

(** Whatever the pipe delivers and whenever the worker is stopped, the
    loop ends, in a state whose record agrees with the sizes. *)
Lemma loop_log_ok rest : forall i st,
  log_ok seg step st ->
  exists st', final_state (loop seg step w i rest st) = Some st'
              /\ log_ok seg step st'.
Proof.
  induction rest as [|raw rest IH]; intros i st Hok.
  - rewrite loop_nil. destruct (stop_is_set w i); eexists; split;
      try reflexivity; assumption.
  - rewrite loop_cons.
    destruct (stop_is_set w i); [now exists st|].
    destruct raw as [|b raw]; [eexists; split; [reflexivity|assumption]|].
    destruct (frombuffer_i2 (b :: raw)) as [pcm|]; [|now exists st].
    cbv zeta. set (st1 := concatenate st (to_float pcm)).
    destruct (drain_total (S (length (buffer st1))) st1) as [st2 E]; [lia|].
    rewrite E. apply IH.
    exact (proj1 (drain_log_ok _ st1 st2 Hok E)).
Qed.

Lemma window_extend off (stream audio : list sample) :
  0 <= off -> off + seg <= Z.of_nat (length stream) ->
  window off seg (stream ++ audio) = window off seg stream.
Proof.
  intros H0 H. unfold window.
  rewrite skipn_app, firstn_app.
  replace (Z.to_nat seg - length (skipn (Z.to_nat off) stream))%nat with 0%nat
    by (rewrite length_skipn; lia).
  simpl. apply app_nil_r.
Qed.

Lemma concatenate_windows_ok st stream audio :
  windows_ok seg st stream ->
  windows_ok seg (concatenate st audio) (stream ++ audio).
Proof.
  intros (Hd & Hb & Hc). unfold windows_ok. simpl.
  rewrite length_app. split; [lia|]. split.
  - rewrite Hb, skipn_app.
    replace (Z.to_nat (dropped st) - length stream)%nat with 0%nat by lia.
    reflexivity.
  - eapply Forall_impl; [|exact Hc]. simpl.
    intros e (H0 & H1 & H2). split; [exact H0|]. split; [lia|].
    now rewrite window_extend.
Qed.

Lemma emit_windows_ok st stream :
  seg <= Z.of_nat (length (buffer st)) ->
  windows_ok seg st stream -> windows_ok seg (emit seg step w st) stream.
Proof.
  intros Hlen (Hd & Hb & Hc).
  destruct (emit_fields st) as (Eb & Ed & Ec).
  pose proof (slice_from_length _ Hlen) as Hs.
  assert (Hbl : Z.of_nat (length (buffer st))
                = Z.of_nat (length stream) - dropped st).
  { rewrite Hb, length_skipn. lia. }
  unfold windows_ok. rewrite Eb, Ed, Ec, Hs.
  split; [lia|]. split.
  - rewrite slice_from_skipn, Hb, skipn_skipn. f_equal. lia.
  - apply Forall_app. split; [exact Hc|].
    constructor; [|constructor]. simpl.
    split; [lia|]. split; [lia|].
    rewrite slice_to_firstn, Hb. reflexivity.
Qed.

Lemma drain_windows_ok fuel : forall st st' stream,
  windows_ok seg st stream -> drain seg step w fuel st = Some st' ->
  windows_ok seg st' stream.
Proof.
  induction fuel as [|fuel IH]; intros st st' stream Hok; simpl;
    destruct (Z.of_nat (length (buffer st)) >=? seg) eqn:E;
    try discriminate; try (intros [= <-]; exact Hok).
  apply IH, emit_windows_ok; [|exact Hok].
  rewrite Z.geb_leb in E. now apply Z.leb_le.
Qed.

(** The segments passed on are windows of what was read: of the samples
    of the first [m] reads, for the number [m] of reads the loop took in. *)
Lemma loop_windows_ok rest : forall i st stream,
  windows_ok seg st stream -> log_ok seg step st ->
  exists st' m,
    final_state (loop seg step w i rest st) = Some st'
    /\ log_ok seg step st'
    /\ windows_ok seg st' (stream ++ decode_all (firstn m rest)).
Proof.
  induction rest as [|raw rest IH]; intros i st stream Hw Hok.
  - rewrite loop_nil.
    destruct (stop_is_set w i); eexists; exists 0%nat; simpl;
      rewrite app_nil_r; (split; [reflexivity|]); split;
      solve [exact Hok | exact Hw].
  - rewrite loop_cons.
    assert (Hhere : forall o st0, final_state o = Some st0 ->
              log_ok seg step st0 -> windows_ok seg st0 stream ->
              exists st' m, final_state o = Some st'
                /\ log_ok seg step st'
                /\ windows_ok seg st'
                     (stream ++ decode_all (firstn m (raw :: rest)))).
    { intros o st0 Ho Hl0 Hw0. exists st0, 0%nat. simpl.
      rewrite app_nil_r. auto. }
    destruct (stop_is_set w i); [now apply (Hhere _ st)|].
    destruct raw as [|b raw];
      [apply (Hhere _ (say st [PStr (py "[INFO] audiotee EOF")]));
       solve [reflexivity | exact Hok | exact Hw]|].
    destruct (frombuffer_i2 (b :: raw)) as [pcm|] eqn:Ef;
      [|now apply (Hhere _ st)].
    cbv zeta. set (st1 := concatenate st (to_float pcm)).
    destruct (drain_total (S (length (buffer st1))) st1) as [st2 E]; [lia|].
    rewrite E.
    destruct (IH (S i) st2 (stream ++ to_float pcm)) as (st' & m & Hf & Hl & Hwin).
    + apply (drain_windows_ok _ st1 st2 _ (concatenate_windows_ok _ _ _ Hw) E).
    + exact (proj1 (drain_log_ok _ st1 st2 Hok E)).
    + exists st', (S m). split; [exact Hf|]. split; [exact Hl|].
      change (firstn (S m) ((b :: raw) :: rest))
        with ((b :: raw) :: firstn m rest).
      unfold decode_all at 1. cbn [flat_map]. fold (decode_all (firstn m rest)).
      rewrite Ef, app_assoc. exact Hwin.
Qed.

(** A worker that is never stopped, on a pipe that delivers whole samples,
    takes in all of them and ends at the end of the stream. *)
Lemma loop_to_end rest : forall i st stream,
  (forall j, stop_is_set w j = false) ->
  Forall whole rest ->
  windows_ok seg st stream -> log_ok seg step st ->
  Z.of_nat (length (buffer st)) < seg ->
  exists st',
    loop seg step w i rest st
    = EndOfStream (say st' [PStr (py "[INFO] audiotee EOF")])
    /\ log_ok seg step st'
    /\ windows_ok seg st' (stream ++ decode_all rest)
    /\ Z.of_nat (length (buffer st')) < seg.
Proof.
  intros i st stream Hstop Hall. revert i st stream.
  induction Hall as [|raw rest (n & Hn & Hlen) _ IH]; intros i st stream Hw Hok Hb.
  - rewrite loop_nil, Hstop. exists st. simpl. rewrite app_nil_r. auto.
  - rewrite loop_cons, Hstop.
    destruct (frombuffer_i2_even n raw Hlen) as (pcm & Ef & _).
    destruct raw as [|b raw]; [simpl in Hlen; lia|].
    rewrite Ef. cbv zeta. set (st1 := concatenate st (to_float pcm)).
    destruct (drain_total (S (length (buffer st1))) st1) as [st2 E]; [lia|].
    rewrite E.
    destruct (drain_log_ok _ st1 st2 Hok E) as [Hok2 Hb2].
    destruct (IH (S i) st2 (stream ++ to_float pcm)) as (st' & Hf & Hl & Hwin & Hb').
    + apply (drain_windows_ok _ st1 st2 _ (concatenate_windows_ok _ _ _ Hw) E).
    + exact Hok2.
    + exact Hb2.
    + exists st'. split; [exact Hf|]. split; [exact Hl|]. split; [|exact Hb'].
      unfold decode_all at 1. cbn [flat_map]. fold (decode_all rest).
      rewrite Ef, app_assoc. exact Hwin.
Qed.

Lemma drain_done fuel st :
  Z.of_nat (length (buffer st)) < seg -> drain seg step w fuel st = Some st.
Proof.
  intros H. destruct fuel; simpl;
    destruct (Z.of_nat (length (buffer st)) >=? seg) eqn:E; try reflexivity;
    rewrite Z.geb_leb in E; apply Z.leb_le in E; lia.
Qed.

Section FullChunks.

Variable c : Z.
Hypothesis c_pos : 0 < c.
Hypothesis c_seg : (c | seg).
Hypothesis c_step : (c | step).

Lemma drain_exact fuel st st' :
  Z.of_nat (length (buffer st)) <= seg ->
  exact_ok seg c st ->
  drain seg step w fuel st = Some st' ->
  exact_ok seg c st' /\ Z.of_nat (length (buffer st')) < seg.
Proof.
  intros Hle [Hdiv Hc].
  destruct (Z_lt_le_dec (Z.of_nat (length (buffer st))) seg) as [Hlt | Hge].
  - rewrite (drain_done _ _ Hlt). intros [= <-]. now repeat split.
  - destruct fuel as [|fuel]; simpl;
      destruct (Z.of_nat (length (buffer st)) >=? seg) eqn:E;
      try discriminate;
      try (rewrite Z.geb_leb in E; apply Z.leb_gt in E; lia).
    destruct (emit_fields st) as (Eb & _ & Ec).
    pose proof (slice_from_length _ Hge) as Hs.
    assert (Hlt : Z.of_nat (length (buffer (emit seg step w st))) < seg)
      by (rewrite Eb, Hs; lia).
    rewrite (drain_done _ _ Hlt). intros [= <-].
    split; [|exact Hlt]. split.
    + rewrite Eb, Hs. replace (Z.of_nat (length (buffer st))) with seg by lia.
      now apply Z.divide_sub_r.
    + rewrite Ec. apply Forall_app. split; [exact Hc|].
      constructor; [simpl; lia | constructor].
Qed.

(** On a pipe that delivers chunks of exactly [c] samples, a chunk size
    that divides both the segment and the hop, every emission happens with
    exactly one segment in the buffer. *)
Lemma loop_exact rest : forall i st,
  Forall (fun raw => Z.of_nat (length raw) = 2 * c) rest ->
  exact_ok seg c st -> Z.of_nat (length (buffer st)) < seg ->
  exists st', final_state (loop seg step w i rest st) = Some st'
              /\ exact_ok seg c st'.
Proof.
  induction rest as [|raw rest IH]; intros i st Hall Hex Hlt.
  - rewrite loop_nil. destruct (stop_is_set w i); eexists;
      (split; [reflexivity | exact Hex]).
  - rewrite loop_cons.
    destruct (stop_is_set w i); [now exists st|].
    inversion Hall as [|r l Hraw Hrest]; subst.
    destruct (frombuffer_i2_even (Z.to_nat c) raw) as (pcm & Ef & Lp); [lia|].
    destruct raw as [|b raw]; [cbn [length Z.of_nat] in Hraw; lia|].
    rewrite Ef. cbv zeta. set (st1 := concatenate st (to_float pcm)).
    destruct (drain_total (S (length (buffer st1))) st1) as [st2 E]; [lia|].
    rewrite E.
    assert (L1 : Z.of_nat (length (buffer st1))
                 = Z.of_nat (length (buffer st)) + c).
    { subst st1. simpl. rewrite length_app, to_float_length, Lp. lia. }
    destruct Hex as [Hdiv Hc].
    assert (Hle : Z.of_nat (length (buffer st1)) <= seg).
    { rewrite L1. destruct Hdiv as [a Ha]. destruct c_seg as [b' Hb'].
      assert (Hab : a < b').
      { apply (Z.mul_lt_mono_pos_r c); [exact c_pos | lia]. }
      assert (Hmul : (a + 1) * c <= b' * c).
      { apply Z.mul_le_mono_nonneg_r; lia. }
      lia. }
    assert (Hex1 : exact_ok seg c st1).
    { split; [|exact Hc]. rewrite L1.
      apply Z.divide_add_r; [exact Hdiv | apply Z.divide_refl]. }
    destruct (drain_exact _ st1 st2 Hle Hex1 E) as [Hex2 Hlt2].
    now apply IH.
Qed.

End FullChunks.

End Sizes.

End LiveFacts.

Module WorkerFacts.
Import Live LiveFacts.

Lemma segment_samples_eq : segment_samples = 192000.
Proof. reflexivity. Qed.

Lemma step_samples_eq : step_samples = 96000.
Proof. reflexivity. Qed.

Lemma step_samples_pos : 0 < step_samples.
Proof. rewrite step_samples_eq. lia. Qed.

Lemma step_le_segment : step_samples <= segment_samples.
Proof. rewrite step_samples_eq, segment_samples_eq. lia. Qed.

(** The worker either misses a dependency or enters the loop with an empty
    buffer and an empty record. *)
Lemma audio_worker_cases (w : world) :
  (exists out, audio_worker w = MissingDependency out)
  \/ (exists st0,
        audio_worker w = loop segment_samples step_samples w 0 (reads w) st0
        /\ buffer st0 = [] /\ dropped st0 = 0 /\ calls st0 = []).
Proof.
  unfold audio_worker.
  destruct (which_exec (machine w) AUDIO_TEE_PATH); [|left; eauto].
  destruct (negb (isfile (machine w) WHISPER_BIN)); [left; eauto|].
  destruct (negb (isfile (machine w) WHISPER_MODEL)); [left; eauto|].
  right. eexists. split; [reflexivity|]. repeat split.
Qed.

Lemma audio_worker_started (w : world) :
  which_exec (machine w) AUDIO_TEE_PATH <> None ->
  isfile (machine w) WHISPER_BIN = true ->
  isfile (machine w) WHISPER_MODEL = true ->
  exists st0,
    audio_worker w = loop segment_samples step_samples w 0 (reads w) st0
    /\ buffer st0 = [] /\ dropped st0 = 0 /\ calls st0 = [].
Proof.
  intros Ha Hb Hm. unfold audio_worker.
  destruct (which_exec (machine w) AUDIO_TEE_PATH); [|congruence].
  rewrite Hb, Hm. simpl negb. cbv iota.
  eexists. split; [reflexivity|]. repeat split.
Qed.

Lemma start_log_ok seg step st0 :
  dropped st0 = 0 -> calls st0 = [] -> log_ok seg step st0.
Proof.
  intros Hd Hc. unfold log_ok. rewrite Hd, Hc. simpl.
  repeat split; [lia | constructor].
Qed.

Lemma start_windows_ok seg st0 :
  buffer st0 = [] -> dropped st0 = 0 -> calls st0 = [] -> windows_ok seg st0 [].
Proof.
  intros Hb Hd Hc. unfold windows_ok. rewrite Hb, Hd, Hc. simpl.
  repeat split; [lia | lia | constructor].
Qed.

Lemma start_exact_ok seg c st0 :
  buffer st0 = [] -> calls st0 = [] -> exact_ok seg c st0.
Proof.
  intros Hb Hc. unfold exact_ok. rewrite Hb, Hc. simpl.
  split; [apply Z.divide_0_r | constructor].
Qed.

Lemma gaps_progression step n : forall a,
  Forall (eq step) (gaps (List.map (fun k => step * Z.of_nat k) (seq a n))).
Proof.
  induction n as [|n IH]; intros a; [constructor|].
  destruct n as [|n]; [constructor|].
  change (seq a (S (S n))) with (a :: seq (S a) (S n)).
  specialize (IH (S a)).
  change (seq (S a) (S n)) with (S a :: seq (S (S a)) n) in *.
  cbn [List.map gaps] in *. constructor; [lia | exact IH].
Qed.

Lemma decode_all_length c chunks :
  Forall (fun raw => Z.of_nat (length raw) = 2 * c) chunks ->
  Z.of_nat (length (decode_all chunks)) = c * Z.of_nat (length chunks).
Proof.
  induction 1 as [|raw chunks Hraw _ IH]; [simpl; lia|].
  change (decode_all (raw :: chunks))
    with (match frombuffer_i2 raw with
          | Some pcm => to_float pcm
          | None => []
          end ++ decode_all chunks).
  destruct (frombuffer_i2_even (Z.to_nat (Z.of_nat (length raw) / 2)) raw)
    as (pcm & -> & Lp).
  { rewrite Hraw, Z.mul_comm, Z.div_mul by lia. lia. }
  rewrite length_app, to_float_length, Lp, Hraw, Z.mul_comm, Z.div_mul by lia.
  cbn [length]. lia.
Qed.

Lemma whole_of_size c raw :
  0 < c -> Z.of_nat (length raw) = 2 * c -> whole raw.
Proof. intros Hc H. exists (Z.to_nat c). lia. Qed.

(** The last entry of a record that agrees with the sizes. *)
Lemma last_offset seg step st :
  log_ok seg step st -> (0 < length (calls st))%nat ->
  exists e, In e (calls st)
            /\ em_offset e = step * (Z.of_nat (length (calls st)) - 1).
Proof.
  intros (_ & Hm & _) Hn.
  assert (Hin : In (step * Z.of_nat (length (calls st) - 1))
                   (List.map em_offset (calls st))).
  { rewrite Hm. apply in_map_iff. exists (length (calls st) - 1)%nat.
    split; [reflexivity|]. apply in_seq. lia. }
  apply in_map_iff in Hin as (e & He & Hin).
  exists e. split; [exact Hin|]. rewrite He. f_equal. lia.
Qed.

End WorkerFacts.

(** C2. Whatever the pipe delivers, the worker ends, and every segment it
    passed to the transcription adapter has exactly [segment_samples]
    samples, was taken while the buffer held at least that many, and is
    the window of the stream read that starts at its offset; the offsets
    are 0, hop, 2 hop, ..., so that consecutive ones are exactly one hop
    apart. *)
Theorem segments_full_and_hop_apart (w : Live.world) :
  exists st m,
    Live.final_state (Live.audio_worker w) = Some st
    /\ Forall (fun e =>
         Z.of_nat (length (Live.em_segment e)) = Live.segment_samples
         /\ Live.segment_samples <= Live.em_buffered e
         /\ Live.em_segment e
            = Live.window (Live.em_offset e) Live.segment_samples
                (Live.decode_all (firstn m (Live.reads w))))
         (Live.calls st)
    /\ List.map Live.em_offset (Live.calls st)
       = List.map (fun k => Live.step_samples * Z.of_nat k)
                  (seq 0 (length (Live.calls st)))
    /\ Forall (eq Live.step_samples)
              (Live.gaps (List.map Live.em_offset (Live.calls st))).
Proof.
  destruct (WorkerFacts.audio_worker_cases w)
    as [[out ->] | (st0 & -> & Hb & Hd & Hc)].
  - eexists. exists 0%nat. split; [reflexivity|]. simpl.
    repeat split; constructor.
  - destruct (LiveFacts.loop_windows_ok Live.segment_samples Live.step_samples w
                WorkerFacts.step_samples_pos WorkerFacts.step_le_segment
                (Live.reads w) 0%nat st0 [])
      as (st & m & Hf & (Hdr & Hm & Hlog) & (_ & _ & Hwin)).
    + now apply WorkerFacts.start_windows_ok.
    + now apply WorkerFacts.start_log_ok.
    + exists st, m. split; [exact Hf|]. split; [|split].
      * rewrite Forall_forall in *. intros e He.
        destruct (Hlog e He) as (A & B & _).
        destruct (Hwin e He) as (_ & _ & C).
        simpl in C. auto.
      * exact Hm.
      * rewrite Hm. apply WorkerFacts.gaps_progression.
Qed.

(** C1. A worker that finds its dependencies and is not stopped, on a
    pipe that delivers 15 chunks of two seconds (30 seconds at 16 kHz) and
    then ends, calls the transcription adapter exactly four times, on the
    12 second windows that start at 0 s, 6 s, 12 s and 18 s of the stream,
    and then ends at the end of the stream. *)
Theorem thirty_seconds_four_calls (w : Live.world) :
  which_exec (Live.machine w) AUDIO_TEE_PATH <> None ->
  isfile (Live.machine w) WHISPER_BIN = true ->
  isfile (Live.machine w) WHISPER_MODEL = true ->
  (forall i, Live.stop_is_set w i = false) ->
  length (Live.reads w) = 15%nat ->
  Forall (fun raw => Z.of_nat (length raw) = Live.chunk_bytes) (Live.reads w) ->
  exists st,
    Live.audio_worker w = Live.EndOfStream st
    /\ Z.of_nat (length (Live.decode_all (Live.reads w))) = 30 * SAMPLE_RATE
    /\ length (Live.calls st) = 4%nat
    /\ List.map Live.em_offset (Live.calls st)
       = [0; 6 * SAMPLE_RATE; 12 * SAMPLE_RATE; 18 * SAMPLE_RATE]
    /\ List.map Live.em_segment (Live.calls st)
       = List.map (fun off => Live.window off (12 * SAMPLE_RATE)
                                (Live.decode_all (Live.reads w)))
                  [0; 6 * SAMPLE_RATE; 12 * SAMPLE_RATE; 18 * SAMPLE_RATE].
Proof.
  intros Ha Hb Hm Hstop Hn Hall.
  destruct (WorkerFacts.audio_worker_started w Ha Hb Hm)
    as (st0 & -> & Eb & Ed & Ec).
  assert (Hall' : Forall (fun raw => Z.of_nat (length raw) = 2 * 32000)
                         (Live.reads w)).
  { eapply Forall_impl; [|exact Hall]. simpl. intros raw ->. reflexivity. }
  assert (Hlen : Z.of_nat (length (Live.decode_all (Live.reads w))) = 480000).
  { rewrite (WorkerFacts.decode_all_length 32000 _ Hall'), Hn. reflexivity. }
  destruct (LiveFacts.loop_to_end Live.segment_samples Live.step_samples w
              WorkerFacts.step_samples_pos WorkerFacts.step_le_segment
              (Live.reads w) 0%nat st0 [] Hstop)
    as (st & -> & Hlog & Hwin & Hbuf).
  { eapply Forall_impl; [|exact Hall'].
    intros raw. apply WorkerFacts.whole_of_size. lia. }
  { now apply WorkerFacts.start_windows_ok. }
  { now apply WorkerFacts.start_log_ok. }
  { rewrite Eb. simpl. rewrite WorkerFacts.segment_samples_eq. lia. }
  eexists. split; [reflexivity|].
  change (Live.calls (Live.say st _)) with (Live.calls st).
  change (30 * SAMPLE_RATE) with 480000.
  change (6 * SAMPLE_RATE) with 96000.
  change (12 * SAMPLE_RATE) with 192000.
  change (18 * SAMPLE_RATE) with 288000.
  split; [exact Hlen|].
  simpl app in Hwin.
  pose proof Hlog as (Hdr & Hoff & _).
  pose proof Hwin as (Hrange & Hbuffer & Hw).
  rewrite WorkerFacts.segment_samples_eq, WorkerFacts.step_samples_eq in *.
  assert (Hcount : length (Live.calls st) = 4%nat).
  { assert (Hbl : Z.of_nat (length (Live.buffer st)) = 480000 - Live.dropped st).
    { rewrite Hbuffer, length_skipn. lia. }
    destruct (Nat.eq_dec (length (Live.calls st)) 0) as [E0 | E0]; [lia|].
    destruct (WorkerFacts.last_offset _ _ st Hlog) as (e & He & Hoe); [lia|].
    rewrite Forall_forall in Hw. destruct (Hw e He) as (_ & Hfit & _).
    lia. }
  split; [exact Hcount|].
  assert (Hoffsets : List.map Live.em_offset (Live.calls st)
                     = [0; 96000; 192000; 288000]).
  { rewrite Hoff, Hcount. reflexivity. }
  split; [exact Hoffsets|].
  rewrite <- Hoffsets, map_map. apply map_ext_in.
  intros e He. rewrite Forall_forall in Hw. now destruct (Hw e He) as (_ & _ & ->).
Qed.

Lemma thirty_seconds_four_calls_witness :
  let w := Samples.world_of (repeat Samples.silence 15) in
  which_exec (Live.machine w) AUDIO_TEE_PATH <> None
  /\ isfile (Live.machine w) WHISPER_BIN = true
  /\ isfile (Live.machine w) WHISPER_MODEL = true
  /\ (forall i, Live.stop_is_set w i = false)
  /\ length (Live.reads w) = 15%nat
  /\ Forall (fun raw => Z.of_nat (length raw) = Live.chunk_bytes) (Live.reads w)
  /\ exists st,
       Live.audio_worker w = Live.EndOfStream st
       /\ length (Live.calls st) = 4%nat
       /\ List.map Live.em_offset (Live.calls st)
          = [0; 6 * SAMPLE_RATE; 12 * SAMPLE_RATE; 18 * SAMPLE_RATE].
Proof.
  intros w.
  assert (H1 : which_exec (Live.machine w) AUDIO_TEE_PATH <> None)
    by (vm_compute; discriminate).
  assert (H2 : isfile (Live.machine w) WHISPER_BIN = true) by reflexivity.
  assert (H3 : isfile (Live.machine w) WHISPER_MODEL = true) by reflexivity.
  assert (H4 : forall i, Live.stop_is_set w i = false) by reflexivity.
  assert (H5 : length (Live.reads w) = 15%nat) by reflexivity.
  assert (H6 : Forall (fun raw => Z.of_nat (length raw) = Live.chunk_bytes)
                      (Live.reads w)).
  { apply Forall_forall. intros raw Hin.
    apply repeat_spec in Hin. subst raw.
    unfold Samples.silence. rewrite repeat_length.
    apply Z2Nat.id. vm_compute. discriminate. }
  split; [exact H1|]. split; [exact H2|]. split; [exact H3|].
  split; [exact H4|]. split; [exact H5|]. split; [exact H6|].
  destruct (thirty_seconds_four_calls w H1 H2 H3 H4 H5 H6)
    as (st & Hrun & _ & Hc & Ho & _).
  exists st. split; [exact Hrun|]. split; [exact Hc | exact Ho].
Defined.

(** C3 (amended). After each emission the buffer holds what it held
    before less the hop, hence at least length - hop samples; it holds
    exactly length - hop when every read delivers a full chunk (two
    seconds, a size that divides both the segment and the hop). *)
Theorem retained_after_emission (w : Live.world) :
  exists st,
    Live.final_state (Live.audio_worker w) = Some st
    /\ Forall (fun e =>
         Live.em_retained e = Live.em_buffered e - Live.step_samples
         /\ Live.segment_samples - Live.step_samples <= Live.em_retained e)
         (Live.calls st)
    /\ (Forall (fun raw => Z.of_nat (length raw) = Live.chunk_bytes)
               (Live.reads w) ->
        Forall (fun e =>
          Live.em_retained e = Live.segment_samples - Live.step_samples)
          (Live.calls st)).
Proof.
  destruct (WorkerFacts.audio_worker_cases w)
    as [[out E] | (st0 & E & Hb & Hd & Hc)]; rewrite E.
  - eexists. split; [reflexivity|]. simpl. split; [constructor|].
    intros _. constructor.
  - destruct (LiveFacts.loop_log_ok Live.segment_samples Live.step_samples w
                WorkerFacts.step_samples_pos WorkerFacts.step_le_segment
                (Live.reads w) 0%nat st0)
      as (st & Hf & (_ & _ & Hlog)).
    { now apply WorkerFacts.start_log_ok. }
    exists st. split; [exact Hf|]. split.
    + eapply Forall_impl; [|exact Hlog]. cbv beta.
      intros e (_ & A & B). split; [exact B|]. rewrite B. lia.
    + intros Hall.
      assert (Hpos : 0 < 32000) by lia.
      assert (Hseg : (32000 | Live.segment_samples)) by (exists 6; reflexivity).
      assert (Hstep : (32000 | Live.step_samples)) by (exists 3; reflexivity).
      assert (Hall' : Forall (fun raw => Z.of_nat (length raw) = 2 * 32000)
                             (Live.reads w)).
      { eapply Forall_impl; [|exact Hall]. cbv beta. intros raw ->. reflexivity. }
      assert (Hlt : Z.of_nat (length (Live.buffer st0)) < Live.segment_samples).
      { rewrite Hb. simpl. rewrite WorkerFacts.segment_samples_eq. lia. }
      destruct (LiveFacts.loop_exact Live.segment_samples Live.step_samples w
                  WorkerFacts.step_samples_pos WorkerFacts.step_le_segment
                  32000 Hpos Hseg Hstep (Live.reads w) 0%nat st0 Hall'
                  (WorkerFacts.start_exact_ok _ _ _ Hb Hc) Hlt)
        as (st' & Hf' & (_ & Hex)).
      rewrite Hf in Hf'. injection Hf' as <-.
      rewrite Forall_forall in *. intros e He.
      destruct (Hlog e He) as (_ & _ & ->). rewrite (Hex e He). reflexivity.
Qed.

Lemma retained_after_emission_witness :
  let w := Samples.world_of (repeat Samples.silence 6) in
  Forall (fun raw => Z.of_nat (length raw) = Live.chunk_bytes) (Live.reads w)
  /\ exists st,
       Live.final_state (Live.audio_worker w) = Some st
       /\ Forall (fun e =>
            Live.em_retained e = Live.segment_samples - Live.step_samples)
            (Live.calls st).
Proof.
  intros w.
  assert (H : Forall (fun raw => Z.of_nat (length raw) = Live.chunk_bytes)
                     (Live.reads w)).
  { apply Forall_forall. intros raw Hin.
    apply repeat_spec in Hin. subst raw.
    unfold Samples.silence. rewrite repeat_length.
    apply Z2Nat.id. vm_compute. discriminate. }
  split; [exact H|].
  destruct (retained_after_emission w) as (st & Hf & _ & Hex).
  exists st. split; [exact Hf | exact (Hex H)].
Defined.

(** C3 as stated fails: when a read delivers less than a full chunk (here
    a single sample, then six full chunks), the emission finds 192001
    samples in the buffer and leaves 96001, not 96000. *)
Lemma retained_more_after_short_read :
  Forall (fun raw => Z.of_nat (length raw) <= Live.chunk_bytes)
         Samples.short_first_read
  /\ option_map
       (fun st => List.map (fun e => (Live.em_buffered e, Live.em_retained e))
                           (Live.calls st))
       (Live.final_state (Live.audio_worker
                            (Samples.world_of Samples.short_first_read)))
     = Some [(192001, 96001)]
  /\ 96001 <> Live.segment_samples - Live.step_samples.
Proof.
  split; [|split].
  - constructor; [vm_compute; discriminate|].
    apply Forall_forall. intros raw Hin. apply repeat_spec in Hin. subst raw.
    unfold Samples.silence. rewrite repeat_length, Z2Nat.id.
    + apply Z.le_refl.
    + vm_compute. discriminate.
  - vm_compute. reflexivity.
  - vm_compute. discriminate.
Qed.

(* ================================================================== *)
(** * Further properties *)

(** ** Live segmentation loop: counts, overlap, queue *)

Module LoopFacts.
Import Live LiveFacts Shapes Queue.

Lemma frombuffer_i2_odd n raw :
  (length raw = 2 * n + 1)%nat -> frombuffer_i2 raw = None.
Proof.
  revert raw. induction n as [|n IH]; intros raw H.
  - destruct raw as [|lo [|hi raw]]; simpl in H; try lia. reflexivity.
  - destruct raw as [|lo [|hi raw]]; simpl in H; try lia.
    simpl. rewrite (IH raw); [reflexivity | lia].
Qed.

Lemma chain_snoc {A} (R : A -> A -> Prop) (d : A) (l : list A) (x : A) :
  chain R l -> (l <> [] -> R (last l d) x) -> chain R (l ++ [x]).
Proof.
  induction l as [|a l IH]; intros Hc Hl; [exact I|].
  destruct l as [|b l].
  - simpl. split; [|exact I]. apply Hl. discriminate.
  - destruct Hc as [Hab Hc].
    change (R a b /\ chain R ((b :: l) ++ [x])).
    split; [exact Hab|]. apply IH; [exact Hc|].
    intros _. apply Hl. discriminate.
Qed.

Lemma last_snoc {A} (d : A) (l : list A) (x : A) : last (l ++ [x]) d = x.
Proof. apply last_last. Qed.

Section Bounds.

Variables seg step : Z.
Variable w : world.
Hypothesis step_pos : 0 < step.
Hypothesis step_le_seg : step <= seg.

(** The loop never ends with a full segment left in the buffer. *)
Lemma loop_buffer_short rest : forall i st st',
  Z.of_nat (length (buffer st)) < seg ->
  final_state (loop seg step w i rest st) = Some st' ->
  Z.of_nat (length (buffer st')) < seg.
Proof.
  induction rest as [|raw rest IH]; intros i st st' Hb.
  - rewrite loop_nil. destruct (stop_is_set w i); intros [= <-]; exact Hb.
  - rewrite loop_cons.
    destruct (stop_is_set w i); [intros [= <-]; exact Hb|].
    destruct raw as [|b raw]; [intros [= <-]; exact Hb|].
    destruct (frombuffer_i2 (b :: raw)) as [pcm|]; [|intros [= <-]; exact Hb].
    cbv zeta. set (st1 := concatenate st (to_float pcm)).
    destruct (drain seg step w (S (length (buffer st1))) st1) as [st2|] eqn:E;
      [|discriminate].
    apply IH.
    destruct (drain_total seg step w step_pos step_le_seg
                (S (length (buffer st1))) st1) as [st2' E']; [lia|].
    assert (Hd : forall fuel s s', drain seg step w fuel s = Some s' ->
                   Z.of_nat (length (buffer s')) < seg).
    { induction fuel as [|fuel IHf]; intros s s'; simpl;
        destruct (Z.of_nat (length (buffer s)) >=? seg) eqn:G;
        try discriminate;
        try (intros [= <-]; rewrite Z.geb_leb in G; now apply Z.leb_gt in G).
      apply IHf. }
    exact (Hd _ _ _ E).
Qed.

(** A never stopped worker takes in a prefix of whole reads and goes on
    with what follows. *)
Lemma loop_prefix pre rest : forall i st stream,
  (forall j, stop_is_set w j = false) ->
  Forall whole pre ->
  windows_ok seg st stream -> log_ok seg step st ->
  Z.of_nat (length (buffer st)) < seg ->
  exists st',
    loop seg step w i (pre ++ rest) st
    = loop seg step w (i + length pre) rest st'
    /\ log_ok seg step st'
    /\ windows_ok seg st' (stream ++ decode_all pre)
    /\ Z.of_nat (length (buffer st')) < seg.
Proof.
  intros i st stream Hstop Hall. revert i st stream.
  induction Hall as [|raw pre (n & Hn & Hlen) _ IH]; intros i st stream Hw Hok Hb.
  - exists st. simpl. rewrite Nat.add_0_r, app_nil_r. auto.
  - change ((raw :: pre) ++ rest) with (raw :: (pre ++ rest)).
    rewrite loop_cons, Hstop.
    destruct (frombuffer_i2_even n raw Hlen) as (pcm & Ef & _).
    destruct raw as [|b raw]; [simpl in Hlen; lia|].
    rewrite Ef. cbv zeta. set (st1 := concatenate st (to_float pcm)).
    destruct (drain_total seg step w step_pos step_le_seg
                (S (length (buffer st1))) st1) as [st2 E]; [lia|].
    rewrite E.
    destruct (drain_log_ok seg step w step_pos step_le_seg _ st1 st2 Hok E)
      as [Hok2 Hb2].
    destruct (IH (S i) st2 (stream ++ to_float pcm)) as (st' & Hf & Hl & Hwin & Hb').
    + apply (drain_windows_ok seg step w step_pos step_le_seg _ st1 st2 _
               (concatenate_windows_ok seg _ _ _ Hw) E).
    + exact Hok2.
    + exact Hb2.
    + exists st'. split.
      { rewrite Hf. f_equal. simpl. lia. }
      split; [exact Hl|]. split; [|exact Hb'].
      unfold decode_all at 1. cbn [flat_map]. fold (decode_all pre).
      rewrite Ef, app_assoc. exact Hwin.
Qed.

(** Windows one hop apart share all but the hop. *)
Lemma window_overlap (stream : list sample) (off : Z) :
  0 <= off ->
  skipn (Z.to_nat step) (window off seg stream)
  = firstn (Z.to_nat (seg - step)) (window (off + step) seg stream).
Proof.
  intros H0. unfold window.
  rewrite firstn_firstn.
  replace (Nat.min (Z.to_nat (seg - step)) (Z.to_nat seg))
    with (Z.to_nat (seg - step)) by lia.
  replace (Z.to_nat (off + step)) with (Z.to_nat step + Z.to_nat off)%nat by lia.
  rewrite <- skipn_skipn.
  rewrite (firstn_skipn_comm (Z.to_nat (seg - step)) (Z.to_nat step)).
  f_equal. f_equal. lia.
Qed.

Lemma segments_chain (stream : list sample) (l : list emission) : forall a,
  List.map em_offset l = List.map (fun k => step * Z.of_nat k) (seq a (length l)) ->
  Forall (fun e => em_segment e = window (em_offset e) seg stream) l ->
  chain (fun s s' => skipn (Z.to_nat step) s = firstn (Z.to_nat (seg - step)) s')
        (List.map em_segment l).
Proof.
  induction l as [|e l IH]; intros a Hm Hw; [exact I|].
  destruct l as [|e' l]; [exact I|].
  inversion Hw as [|x y He Hw']; subst.
  inversion Hw' as [|x y He' _]; subst.
  cbn [length seq List.map] in Hm.
  injection Hm as Ho Ho' Hrest.
  change (skipn (Z.to_nat step) (em_segment e)
          = firstn (Z.to_nat (seg - step)) (em_segment e')
          /\ chain (fun s s' => skipn (Z.to_nat step) s
                                = firstn (Z.to_nat (seg - step)) s')
                   (List.map em_segment (e' :: l))).
  split.
  - rewrite He, He', Ho, Ho'.
    replace (step * Z.pos (Pos.of_succ_nat a))
      with (step * Z.of_nat a + step) by lia.
    apply window_overlap. lia.
  - apply (IH (S a)); [|exact Hw'].
    cbn [length seq List.map]. rewrite Ho', Hrest. reflexivity.
Qed.

Lemma emit_queue_ok st : queue_ok st -> queue_ok (emit seg step w st).
Proof.
  intros (Hne & Hch & Hl). unfold queue_ok, emit.
  destruct (run_whisper_cpp _ _ _ _ _) as [text out].
  unfold accept.
  destruct (truthy text) eqn:Et; simpl; [|now repeat split].
  destruct (str_eqb text (last_line st)) eqn:Ee; simpl; [now repeat split|].
  assert (Hd : text <> last_line st).
  { intros C. rewrite C, str_eqb_refl in Ee. discriminate. }
  split; [|split].
  - apply Forall_app. split; [exact Hne|].
    constructor; [|constructor]. intros ->. discriminate.
  - apply (chain_snoc _ []); [exact Hch|].
    intros _. rewrite <- Hl. congruence.
  - symmetry. apply last_snoc.
Qed.

Lemma drain_queue_ok fuel : forall st st',
  queue_ok st -> drain seg step w fuel st = Some st' -> queue_ok st'.
Proof.
  induction fuel as [|fuel IH]; intros st st' Hq; simpl;
    destruct (Z.of_nat (length (buffer st)) >=? seg);
    try discriminate; try (intros [= <-]; exact Hq).
  apply IH, emit_queue_ok, Hq.
Qed.

Lemma loop_queue_ok rest : forall i st st',
  queue_ok st -> final_state (loop seg step w i rest st) = Some st' ->
  queue_ok st'.
Proof.
  induction rest as [|raw rest IH]; intros i st st' Hq.
  - rewrite loop_nil. destruct (stop_is_set w i); intros [= <-]; exact Hq.
  - rewrite loop_cons.
    destruct (stop_is_set w i); [intros [= <-]; exact Hq|].
    destruct raw as [|b raw]; [intros [= <-]; exact Hq|].
    destruct (frombuffer_i2 (b :: raw)) as [pcm|]; [|intros [= <-]; exact Hq].
    cbv zeta. set (st1 := concatenate st (to_float pcm)).
    destruct (drain seg step w (S (length (buffer st1))) st1) as [st2|] eqn:E;
      [|discriminate].
    apply IH. exact (drain_queue_ok _ st1 st2 Hq E).
Qed.

End Bounds.

End LoopFacts.

Module WorkerBounds.
Import Live LiveFacts WorkerFacts LoopFacts.

Lemma silence_whole : whole Samples.silence.
Proof.
  exists (Z.to_nat 32000). unfold Samples.silence. rewrite repeat_length.
  change chunk_bytes with 64000. lia.
Qed.

Lemma start_queue_ok st0 :
  last_line st0 = [] -> text_queue st0 = [] -> Queue.queue_ok st0.
Proof.
  intros Hl Hq. unfold Queue.queue_ok. rewrite Hl, Hq. simpl.
  repeat split. constructor.
Qed.

(** The loop is entered with nothing said and nothing queued. *)
Lemma audio_worker_cases_queue (w : world) :
  (exists out, audio_worker w = MissingDependency out)
  \/ (exists st0,
        audio_worker w = loop segment_samples step_samples w 0 (reads w) st0
        /\ buffer st0 = [] /\ dropped st0 = 0 /\ calls st0 = []
        /\ last_line st0 = [] /\ text_queue st0 = []).
Proof.
  unfold audio_worker.
  destruct (which_exec (machine w) AUDIO_TEE_PATH); [|left; eauto].
  destruct (negb (isfile (machine w) WHISPER_BIN)); [left; eauto|].
  destruct (negb (isfile (machine w) WHISPER_MODEL)); [left; eauto|].
  right. eexists. split; [reflexivity|]. repeat split.
Qed.

End WorkerBounds.

(** X1. A worker that finds its dependencies and is never stopped, on a
    pipe that delivers whole samples and then ends, makes no call when the
    stream is shorter than a segment and otherwise
    (n - segment) / hop + 1 calls, for a stream of n samples. *)
Theorem calls_by_stream_length (w : Live.world) :
  which_exec (Live.machine w) AUDIO_TEE_PATH <> None ->
  isfile (Live.machine w) WHISPER_BIN = true ->
  isfile (Live.machine w) WHISPER_MODEL = true ->
  (forall i, Live.stop_is_set w i = false) ->
  Forall Live.whole (Live.reads w) ->
  exists st,
    Live.audio_worker w = Live.EndOfStream st
    /\ Z.of_nat (length (Live.calls st))
       = if Z.of_nat (length (Live.decode_all (Live.reads w)))
            <? Live.segment_samples
         then 0
         else (Z.of_nat (length (Live.decode_all (Live.reads w)))
               - Live.segment_samples) / Live.step_samples + 1.
Proof.
  intros Ha Hb Hm Hstop Hall.
  destruct (WorkerFacts.audio_worker_started w Ha Hb Hm)
    as (st0 & -> & Eb & Ed & Ec).
  destruct (LiveFacts.loop_to_end Live.segment_samples Live.step_samples w
              WorkerFacts.step_samples_pos WorkerFacts.step_le_segment
              (Live.reads w) 0%nat st0 [] Hstop Hall)
    as (st & -> & Hlog & Hwin & Hbuf).
  { now apply WorkerFacts.start_windows_ok. }
  { now apply WorkerFacts.start_log_ok. }
  { rewrite Eb. simpl. rewrite WorkerFacts.segment_samples_eq. lia. }
  eexists. split; [reflexivity|].
  change (Live.calls (Live.say st _)) with (Live.calls st).
  simpl app in Hwin.
  set (n := Z.of_nat (length (Live.decode_all (Live.reads w)))) in *.
  pose proof Hlog as (Hdr & _ & _).
  pose proof Hwin as (Hrange & Hbuffer & Hw).
  assert (Hbl : Z.of_nat (length (Live.buffer st)) = n - Live.dropped st).
  { rewrite Hbuffer, length_skipn. subst n. lia. }
  rewrite WorkerFacts.segment_samples_eq, WorkerFacts.step_samples_eq in *.
  assert (Hlast : (0 < length (Live.calls st))%nat ->
            96000 * (Z.of_nat (length (Live.calls st)) - 1) + 192000 <= n).
  { intros Hpos.
    destruct (WorkerFacts.last_offset _ _ st Hlog Hpos) as (e & He & Hoe).
    rewrite Forall_forall in Hw. destruct (Hw e He) as (_ & Hfit & _).
    fold n in Hfit. lia. }
  destruct (n <? 192000) eqn:E.
  - apply Z.ltb_lt in E.
    destruct (Nat.eq_dec (length (Live.calls st)) 0) as [E0 | E0]; [lia|].
    specialize (Hlast ltac:(lia)). lia.
  - apply Z.ltb_ge in E.
    assert (Hpos : (0 < length (Live.calls st))%nat).
    { destruct (Nat.eq_dec (length (Live.calls st)) 0) as [E0 | E0]; [|lia].
      rewrite E0 in Hdr. lia. }
    specialize (Hlast Hpos).
    assert (Hq : (n - 192000) / 96000 = Z.of_nat (length (Live.calls st)) - 1).
    { symmetry. apply (Z.div_unique_pos _ _ _
        (n - 192000 - 96000 * (Z.of_nat (length (Live.calls st)) - 1))); lia. }
    lia.
Qed.

Lemma calls_by_stream_length_witness :
  let w := Samples.world_of (repeat Samples.silence 7) in
  which_exec (Live.machine w) AUDIO_TEE_PATH <> None
  /\ isfile (Live.machine w) WHISPER_BIN = true
  /\ isfile (Live.machine w) WHISPER_MODEL = true
  /\ (forall i, Live.stop_is_set w i = false)
  /\ Forall Live.whole (Live.reads w)
  /\ exists st,
       Live.audio_worker w = Live.EndOfStream st
       /\ Z.of_nat (length (Live.calls st))
          = if Z.of_nat (length (Live.decode_all (Live.reads w)))
               <? Live.segment_samples
            then 0
            else (Z.of_nat (length (Live.decode_all (Live.reads w)))
                  - Live.segment_samples) / Live.step_samples + 1.
Proof.
  intros w.
  assert (H1 : which_exec (Live.machine w) AUDIO_TEE_PATH <> None)
    by (vm_compute; discriminate).
  assert (H2 : isfile (Live.machine w) WHISPER_BIN = true) by reflexivity.
  assert (H3 : isfile (Live.machine w) WHISPER_MODEL = true) by reflexivity.
  assert (H4 : forall i, Live.stop_is_set w i = false) by reflexivity.
  assert (H5 : Forall Live.whole (Live.reads w)).
  { apply Forall_forall. intros raw Hin. apply repeat_spec in Hin. subst raw.
    apply WorkerBounds.silence_whole. }
  split; [exact H1|]. split; [exact H2|]. split; [exact H3|].
  split; [exact H4|]. split; [exact H5|].
  exact (calls_by_stream_length w H1 H2 H3 H4 H5).
Defined.

(** X2. Whatever the pipe delivers, two segments passed on one after the
    other overlap: the first without its first hop samples is the second
    without its last hop samples. *)
Theorem consecutive_segments_overlap (w : Live.world) :
  exists st,
    Live.final_state (Live.audio_worker w) = Some st
    /\ Shapes.chain
         (fun s s' =>
            skipn (Z.to_nat Live.step_samples) s
            = firstn (Z.to_nat (Live.segment_samples - Live.step_samples)) s')
         (List.map Live.em_segment (Live.calls st)).
Proof.
  destruct (WorkerFacts.audio_worker_cases w)
    as [[out ->] | (st0 & -> & Hb & Hd & Hc)].
  - eexists. split; [reflexivity|]. exact I.
  - destruct (LiveFacts.loop_windows_ok Live.segment_samples Live.step_samples w
                WorkerFacts.step_samples_pos WorkerFacts.step_le_segment
                (Live.reads w) 0%nat st0 [])
      as (st & m & Hf & (_ & Hm & _) & (_ & _ & Hwin)).
    + now apply WorkerFacts.start_windows_ok.
    + now apply WorkerFacts.start_log_ok.
    + exists st. split; [exact Hf|].
      apply (LoopFacts.segments_chain Live.segment_samples Live.step_samples
               WorkerFacts.step_samples_pos WorkerFacts.step_le_segment
               ([] ++ Live.decode_all (firstn m (Live.reads w)))
               (Live.calls st) 0%nat Hm).
      eapply Forall_impl; [|exact Hwin]. cbv beta. intros e (_ & _ & He).
      exact He.
Qed.

(** X3. Whatever the pipe delivers and the engine answers, no line put on
    the queue is empty, no line is queued twice in a row, and [last_line]
    is the line queued last. *)
Theorem queue_never_repeats (w : Live.world) :
  exists st,
    Live.final_state (Live.audio_worker w) = Some st
    /\ Forall (fun t => t <> []) (Live.text_queue st)
    /\ Shapes.chain (fun a b => a <> b) (Live.text_queue st)
    /\ Live.last_line st = last (Live.text_queue st) [].
Proof.
  destruct (WorkerBounds.audio_worker_cases_queue w)
    as [[out ->] | (st0 & -> & Hb & Hd & Hc & Hl & Hq)].
  - eexists. split; [reflexivity|]. simpl. repeat split. constructor.
  - destruct (LiveFacts.loop_log_ok Live.segment_samples Live.step_samples w
                WorkerFacts.step_samples_pos WorkerFacts.step_le_segment
                (Live.reads w) 0%nat st0) as (st & Hf & _).
    { now apply WorkerFacts.start_log_ok. }
    exists st. split; [exact Hf|].
    apply (LoopFacts.loop_queue_ok Live.segment_samples Live.step_samples w
             (Live.reads w) 0%nat st0 st); [|exact Hf].
    now apply WorkerBounds.start_queue_ok.
Qed.


(** X5. A read with an odd number of bytes ends the worker with the
    ValueError of the decoder: when the reads before it are whole and the
    worker is not stopped, they have all been taken in (buffer and shifted
    samples add up to them) and what follows is never read. *)
Theorem odd_read_raises (w : Live.world)
    (before after : list (list byte)) (odd_read : list byte) :
  which_exec (Live.machine w) AUDIO_TEE_PATH <> None ->
  isfile (Live.machine w) WHISPER_BIN = true ->
  isfile (Live.machine w) WHISPER_MODEL = true ->
  (forall i, Live.stop_is_set w i = false) ->
  Live.reads w = before ++ odd_read :: after ->
  Forall Live.whole before ->
  Nat.odd (length odd_read) = true ->
  exists st,
    Live.audio_worker w = Live.ValueError st
    /\ Live.buffer st
       = skipn (Z.to_nat (Live.step_samples * Z.of_nat (length (Live.calls st))))
               (Live.decode_all before)
    /\ Z.of_nat (length (Live.buffer st))
       + Live.step_samples * Z.of_nat (length (Live.calls st))
       = Z.of_nat (length (Live.decode_all before)).
Proof.
  intros Ha Hb Hm Hstop Hreads Hall Hodd.
  destruct (WorkerFacts.audio_worker_started w Ha Hb Hm)
    as (st0 & -> & Eb & Ed & Ec).
  rewrite Hreads.
  destruct (LoopFacts.loop_prefix Live.segment_samples Live.step_samples w
              WorkerFacts.step_samples_pos WorkerFacts.step_le_segment
              before (odd_read :: after) 0%nat st0 [] Hstop Hall)
    as (st & -> & (Hdr & _ & _) & (Hrange & Hbuf & _) & _).
  { now apply WorkerFacts.start_windows_ok. }
  { now apply WorkerFacts.start_log_ok. }
  { rewrite Eb. simpl. rewrite WorkerFacts.segment_samples_eq. lia. }
  exists st. simpl app in *.
  rewrite LiveFacts.loop_cons, Hstop.
  apply Nat.odd_spec in Hodd. destruct Hodd as [n Hn].
  rewrite (LoopFacts.frombuffer_i2_odd n odd_read Hn).
  destruct odd_read as [|b r]; [simpl in Hn; lia|].
  split; [reflexivity|]. rewrite <- Hdr. split; [exact Hbuf|].
  rewrite Hbuf, length_skipn. lia.
Qed.

Lemma odd_read_raises_witness :
  let w := Samples.world_of ([Samples.silence] ++ [x00; x00; x00] :: [Samples.silence]) in
  which_exec (Live.machine w) AUDIO_TEE_PATH <> None
  /\ isfile (Live.machine w) WHISPER_BIN = true
  /\ isfile (Live.machine w) WHISPER_MODEL = true
  /\ (forall i, Live.stop_is_set w i = false)
  /\ Forall Live.whole [Samples.silence]
  /\ Nat.odd (length [x00; x00; x00]) = true
  /\ exists st, Live.audio_worker w = Live.ValueError st.
Proof.
  intros w.
  assert (H1 : which_exec (Live.machine w) AUDIO_TEE_PATH <> None)
    by (vm_compute; discriminate).
  assert (H2 : isfile (Live.machine w) WHISPER_BIN = true) by reflexivity.
  assert (H3 : isfile (Live.machine w) WHISPER_MODEL = true) by reflexivity.
  assert (H4 : forall i, Live.stop_is_set w i = false) by reflexivity.
  assert (H5 : Forall Live.whole [Samples.silence])
    by (constructor; [apply WorkerBounds.silence_whole | constructor]).
  assert (H6 : Nat.odd (length [x00; x00; x00]) = true) by reflexivity.
  split; [exact H1|]. split; [exact H2|]. split; [exact H3|].
  split; [exact H4|]. split; [exact H5|]. split; [exact H6|].
  destruct (odd_read_raises w [Samples.silence] [Samples.silence]
              [x00; x00; x00] H1 H2 H3 H4 eq_refl H5 H6) as (st & Hst & _).
  exists st. exact Hst.
Defined.

(** ** Recording controller: what holds in every reachable state *)

Module ControllerFacts.
Import Recording Controller RecordingFacts.

Lemma set_nth_length {A} n (x : A) l : length (set_nth n x l) = length l.
Proof.
  revert n. induction l as [|y l IH]; intros [|n]; simpl; auto.
Qed.

Lemma nth_error_set_nth_same {A} n (x y : A) l :
  nth_error l n = Some y -> nth_error (set_nth n x l) n = Some x.
Proof.
  revert n. induction l as [|z l IH]; intros [|n]; simpl; try discriminate; auto.
Qed.

Lemma nth_error_set_nth_other {A} n k (x : A) l :
  n <> k -> nth_error (set_nth n x l) k = nth_error l k.
Proof.
  revert n k. induction l as [|z l IH]; intros [|n] [|k] H; simpl; auto;
    try congruence.
Qed.

Lemma set_true_keeps_true n l k :
  nth_error l k = Some true -> nth_error (set_nth n true l) k = Some true.
Proof.
  intros H. destruct (Nat.eq_dec n k) as [-> | Hn].
  - now apply (nth_error_set_nth_same _ _ true).
  - now rewrite nth_error_set_nth_other.
Qed.

Lemma map_target_set_nth t th ths :
  nth_error ths t = Some th ->
  List.map th_target
    (set_nth t {| th_target := th_target th; th_alive := false |} ths)
  = List.map th_target ths.
Proof.
  revert t. induction ths as [|x ths IH]; intros [|t]; simpl;
    try discriminate.
  - intros [= ->]. reflexivity.
  - intros H. now rewrite IH.
Qed.

Lemma joined_by_targets ths ths' :
  List.map th_target ths = List.map th_target ths' -> joined ths = joined ths'.
Proof.
  revert ths'. induction ths as [|x ths IH]; intros [|y ths']; simpl;
    try discriminate; [reflexivity|].
  intros [= Hx Hm]. rewrite Hx. now rewrite (IH _ Hm).
Qed.

Lemma target_at_by_targets g g' :
  List.map th_target (threads g) = List.map th_target (threads g') ->
  forall t, target_at g t = target_at g' t.
Proof.
  intros H t. unfold target_at.
  rewrite <- !nth_error_map. now rewrite H.
Qed.

Lemma target_at_snoc_old g ths x t y :
  threads g = ths ++ [x] ->
  option_map th_target (nth_error ths t) = Some y -> target_at g t = Some y.
Proof.
  intros Hg H. unfold target_at. rewrite Hg.
  destruct (nth_error ths t) as [th|] eqn:E; [|discriminate].
  now rewrite (nth_error_snoc_old _ _ _ _ E).
Qed.

Lemma target_at_bound g t y : target_at g t = Some y -> (t < length (threads g))%nat.
Proof.
  unfold target_at. intros H. apply nth_error_Some.
  destruct (nth_error (threads g) t); [discriminate | discriminate].
Qed.

Lemma joined_spec ths r :
  In r (joined ths) ->
  exists i p l m,
    option_map th_target (nth_error ths i)
    = Some (_finish_recording_and_segment r p l m).
Proof.
  unfold joined. intros H. apply in_flat_map in H as (th & Hin & Hr).
  apply In_nth_error in Hin as [i Hi].
  destruct (th_target th) as [|r' p l m] eqn:Et; [destruct Hr|].
  destruct Hr as [<- | []].
  exists i, p, l, m. now rewrite Hi, <- Et.
Qed.

Lemma joined_snoc ths x :
  joined (ths ++ [x])
  = joined ths ++ match th_target x with
                  | _finish_recording_and_segment r _ _ _ => [r]
                  | record_worker _ _ => []
                  end.
Proof.
  unfold joined. rewrite flat_map_app. simpl. now rewrite app_nil_r.
Qed.

Lemma say_invariant g line : invariant g -> invariant (say g line).
Proof. intros H. exact H. Qed.

Lemma joined_bound g r :
  finishers_ok g -> In r (joined (threads g)) -> (r < length (threads g))%nat.
Proof.
  intros Hf Hin. apply joined_spec in Hin as (i & p & l & m & Hi).
  destruct (Hf i r p l m Hi) as (e & Ht & _).
  now apply (target_at_bound g r _ Ht).
Qed.

Lemma start_recording_invariant u answer g :
  invariant g -> invariant (start_recording u answer g).
Proof.
  intros Hinv. unfold start_recording.
  destruct (recording g); [now apply say_invariant|].
  destruct answer as [name|]; [|exact Hinv].
  destruct (negb (truthy name)); [exact Hinv|].
  destruct Hinv as (Hr & Hf & Hn & Ha).
  set (x := {| th_target := record_worker _ _; th_alive := true |}).
  set (g' := {| threads := threads g ++ [x] |}).
  assert (Hold : forall t y, target_at g t = Some y -> target_at g' t = Some y).
  { intros t y H. now apply (target_at_snoc_old g' (threads g) x). }
  repeat split.
  - unfold refs_ok. simpl. eexists _, _.
    split; [|split; [reflexivity | split; [reflexivity|]]].
    + unfold target_at. simpl. now rewrite nth_error_snoc.
    + apply nth_error_snoc.
  - intros i r p l m Hi.
    assert (Hi' : target_at g i = Some (_finish_recording_and_segment r p l m)).
    { unfold target_at in *. simpl in Hi.
      destruct (Nat.lt_ge_cases i (length (threads g))) as [Hlt | Hge].
      - now rewrite nth_error_app1 in Hi.
      - rewrite nth_error_app2 in Hi by exact Hge.
        destruct (i - length (threads g))%nat as [|[|k]]; simpl in Hi;
          discriminate. }
    destruct (Hf i r p l m Hi') as (e & Ht & He).
    exists e. split; [now apply Hold|].
    simpl. now apply nth_error_snoc_old.
  - simpl. rewrite joined_snoc. simpl. now rewrite app_nil_r.
  - intros t. simpl. intros [= <-]. rewrite joined_snoc. simpl.
    rewrite app_nil_r. intros Hin.
    pose proof (joined_bound g _ Hf Hin). lia.
Qed.

Lemma stop_recording_invariant g g' :
  invariant g -> stop_recording g = Returned g' -> invariant g'.
Proof.
  intros Hinv. unfold stop_recording.
  destruct (negb (recording g)); [intros [= <-]; now apply say_invariant|].
  destruct Hinv as (Hr & Hf & Hn & Ha).
  unfold refs_ok in Hr.
  destruct (record_thread g) as [t|] eqn:Et.
  - destruct Hr as (p & e & Ht & -> & -> & He).
    intros [= <-].
    set (x := {| th_target := _finish_recording_and_segment t p _ _;
                 th_alive := true |}).
    set (g1 := {| threads := threads g ++ [x] |}).
    assert (Hold : forall k y, target_at g k = Some y -> target_at g1 k = Some y).
    { intros k y H. now apply (target_at_snoc_old g1 (threads g) x). }
    repeat split.
    + intros i r q l m Hi.
      destruct (Nat.lt_ge_cases i (length (threads g))) as [Hlt | Hge].
      * assert (Hi' : target_at g i
                      = Some (_finish_recording_and_segment r q l m)).
        { unfold target_at in *. simpl in Hi.
          now rewrite nth_error_app1 in Hi. }
        destruct (Hf i r q l m Hi') as (e' & Ht' & He').
        exists e'. split; [now apply Hold|].
        simpl. now apply set_true_keeps_true.
      * unfold target_at in Hi. simpl in Hi.
        rewrite nth_error_app2 in Hi by exact Hge.
        destruct (i - length (threads g))%nat as [|[|k]]; simpl in Hi;
          try discriminate.
        injection Hi as <- <- _ _.
        exists e. split; [now apply Hold|].
        simpl. now apply (nth_error_set_nth_same _ _ false).
    + simpl. rewrite joined_snoc. simpl.
      apply NoDup_app; [exact Hn | repeat constructor; intros [] |].
      intros y Hy [<- | []]. exact (Ha t eq_refl Hy).
    + simpl. discriminate.
  - discriminate.
Qed.

Lemma thread_exit_invariant g t : invariant g -> invariant (thread_exit g t).
Proof.
  intros Hinv. unfold thread_exit.
  destruct (nth_error (threads g) t) as [th|] eqn:E; [|exact Hinv].
  destruct Hinv as (Hr & Hf & Hn & Ha).
  set (g' := {| threads := set_nth t _ (threads g) |}).
  assert (Hm : List.map th_target (threads g') = List.map th_target (threads g))
    by (apply map_target_set_nth, E).
  assert (Ht : forall k, target_at g' k = target_at g k)
    by (apply target_at_by_targets, Hm).
  assert (Hj : joined (threads g') = joined (threads g))
    by (apply joined_by_targets, Hm).
  split; [|split; [|split]].
  - unfold refs_ok in *. change (record_thread g') with (record_thread g).
    destruct (record_thread g); [|exact Hr].
    destruct Hr as (p & e & H1 & H2 & H3 & H4).
    exists p, e. rewrite Ht. auto.
  - intros i r p l m Hi. rewrite Ht in Hi.
    destruct (Hf i r p l m Hi) as (e & H1 & H2).
    exists e. rewrite Ht. auto.
  - now rewrite Hj.
  - rewrite Hj. exact Ha.
Qed.

(** The invariant holds in every state the window can be in. *)
Lemma reachable_invariant u g : reachable u g -> invariant g.
Proof.
  induction 1 as [|g answer _ IH|g g' _ IH Hs|g t _ IH _|g c _ IH].
  - repeat split; simpl; try constructor.
    + intros i r p l m Hi. unfold target_at in Hi. simpl in Hi.
      destruct i; discriminate.
    + discriminate.
  - now apply start_recording_invariant.
  - now apply (stop_recording_invariant g).
  - now apply thread_exit_invariant.
  - exact IH.
Qed.

End ControllerFacts.

Lemma stopped_once_reachable : Recording.reachable latin1 MoreSamples.stopped_once.
Proof.
  apply (Recording.reach_stop latin1
           (Recording.start_recording latin1 (Some (py "ep 1")) Recording.initial)).
  - apply Recording.reach_start, Recording.reach_initial.
  - reflexivity.
Qed.

(** X6. In every reachable state the three variables of the controller go
    together: they refer to a recorder thread, to the path that thread
    writes and to its stop event, which is not set, or all three are
    cleared; so the two assertions of [stop_recording] never fail. *)
Theorem stop_recording_never_asserts (u : unicode) (g : Recording.gui) :
  Recording.reachable u g ->
  Controller.refs_ok g
  /\ Recording.stop_recording g <> Recording.AssertionError.
Proof.
  intros Hreach.
  destruct (ControllerFacts.reachable_invariant u g Hreach) as (Hr & _).
  split; [exact Hr|].
  unfold Recording.stop_recording, Recording.recording.
  unfold Controller.refs_ok in Hr.
  destruct (Recording.record_thread g) as [t|]; [|discriminate].
  destruct Hr as (p & e & _ & -> & -> & _).
  destruct (negb (Recording.is_alive g t)); discriminate.
Qed.

Lemma stop_recording_never_asserts_witness :
  Recording.reachable latin1 MoreSamples.stopped_once
  /\ Controller.refs_ok MoreSamples.stopped_once
  /\ Recording.stop_recording MoreSamples.stopped_once
     <> Recording.AssertionError.
Proof.
  split; [exact stopped_once_reachable|].
  exact (stop_recording_never_asserts latin1 _ stopped_once_reachable).
Defined.

(** X7. In every reachable state each finishing thread joins a recorder
    thread that writes the very path the finishing thread was given, and
    the stop event of that recorder is set. *)
Theorem finisher_joins_stopped_recorder (u : unicode) (g : Recording.gui)
    (i r : nat) (p : str) (l : option str) (m : str) :
  Recording.reachable u g ->
  Controller.target_at g i
  = Some (Recording._finish_recording_and_segment r p l m) ->
  exists e,
    Controller.target_at g r = Some (Recording.record_worker p e)
    /\ nth_error (Recording.events g) e = Some true.
Proof.
  intros Hreach Hi.
  destruct (ControllerFacts.reachable_invariant u g Hreach) as (_ & Hf & _).
  exact (Hf i r p l m Hi).
Qed.

Lemma finisher_joins_stopped_recorder_witness :
  Recording.reachable latin1 MoreSamples.stopped_once
  /\ Controller.target_at MoreSamples.stopped_once 1
     = Some (Recording._finish_recording_and_segment 0
               (py "recordings/ep_1.wav") None (py "english"))
  /\ exists e,
       Controller.target_at MoreSamples.stopped_once 0
       = Some (Recording.record_worker (py "recordings/ep_1.wav") e)
       /\ nth_error (Recording.events MoreSamples.stopped_once) e = Some true.
Proof.
  assert (H : Controller.target_at MoreSamples.stopped_once 1
              = Some (Recording._finish_recording_and_segment 0
                        (py "recordings/ep_1.wav") None (py "english")))
    by reflexivity.
  split; [exact stopped_once_reachable|]. split; [exact H|].
  exact (finisher_joins_stopped_recorder latin1 _ 1 0 _ _ _
           stopped_once_reachable H).
Defined.

(** X8. In every reachable state no recorder is joined by two finishing
    threads, and the recorder the controller refers to is joined by none:
    a recording is never handed to the finishing pipeline twice. *)
Theorem one_finisher_per_recorder (u : unicode) (g : Recording.gui) :
  Recording.reachable u g ->
  NoDup (Controller.joined (Recording.threads g))
  /\ (forall t, Recording.record_thread g = Some t ->
                ~ In t (Controller.joined (Recording.threads g))).
Proof.
  intros Hreach.
  destruct (ControllerFacts.reachable_invariant u g Hreach) as (_ & _ & Hn & Ha).
  split; assumption.
Qed.

Lemma one_finisher_per_recorder_witness :
  let g := Recording.start_recording latin1 (Some (py "ep 2"))
             MoreSamples.stopped_once in
  Recording.reachable latin1 g
  /\ Recording.record_thread g = Some 2%nat
  /\ NoDup (Controller.joined (Recording.threads g))
  /\ ~ In 2%nat (Controller.joined (Recording.threads g)).
Proof.
  intros g.
  assert (R : Recording.reachable latin1 g)
    by (apply Recording.reach_start, stopped_once_reachable).
  assert (T : Recording.record_thread g = Some 2%nat) by reflexivity.
  split; [exact R|]. split; [exact T|].
  destruct (one_finisher_per_recorder latin1 g R) as [Hn Ha].
  split; [exact Hn | exact (Ha 2%nat T)].
Defined.

(** ** Episode names and the paths made of them *)

Module NameFacts.
Import Recording.

Lemma strip_by_first p s :
  strip_by p s = [] \/ exists c t, strip_by p s = c :: t /\ p c = false.
Proof.
  unfold strip_by.
  destruct (lstrip_by_head p s) as [-> | (c & t & -> & Hc)]; [now left|].
  right. exists c, (rstrip_by p t). split; [|exact Hc].
  now apply rstrip_by_cons.
Qed.

Lemma strip_by_last p s :
  strip_by p s = [] \/ exists t c, strip_by p s = t ++ [c] /\ p c = false.
Proof.
  unfold strip_by, rstrip_by.
  destruct (lstrip_by_head p (rev (lstrip_by p s))) as [-> | (c & t & -> & Hc)];
    [now left|].
  right. exists (rev t), c. now split.
Qed.

Lemma kept_not_dot_slash u c :
  kept u c = true -> c <> 46%N /\ c <> 47%N.
Proof.
  intros H. split; intros ->; vm_compute in H; discriminate.
Qed.

Lemma map_kept_id u s :
  Forall (fun c => kept u c = true) s ->
  List.map (fun c => if isalnum u c || existsb (N.eqb c) (py "_-")
                     then c else 95%N) s = s.
Proof.
  induction 1 as [|c s Hc _ IH]; [reflexivity|].
  cbn [List.map].
  change (isalnum u c || existsb (N.eqb c) (py "_-")) with (kept u c).
  rewrite Hc. f_equal. exact IH.
Qed.

(** The two shapes of a sanitized name. *)
Lemma safe_name_cases u name :
  safe_name u name = py "episode"
  \/ (safe_name u name <> []
      /\ exists s, safe_name u name = strip_chars (py "_") s).
Proof.
  unfold safe_name.
  destruct (truthy (strip_chars _ _)) eqn:E; [|now left].
  right. split; [|eexists; reflexivity].
  intros C. rewrite C in E. discriminate.
Qed.

Lemma take_until_app sep a b :
  Forall (fun c => c <> sep) a -> take_until sep (a ++ sep :: b) = a.
Proof.
  induction 1 as [|c a Hc _ IH]; simpl.
  - now rewrite N.eqb_refl.
  - apply N.eqb_neq in Hc. rewrite Hc. now rewrite IH.
Qed.

Lemma drop_until_app sep a b :
  Forall (fun c => c <> sep) a -> drop_until sep (a ++ sep :: b) = Some b.
Proof.
  induction 1 as [|c a Hc _ IH]; simpl.
  - now rewrite N.eqb_refl.
  - apply N.eqb_neq in Hc. now rewrite Hc.
Qed.

Lemma path_join_plain a b c t :
  truthy a = true -> endswith (py "/") a = false ->
  b = c :: t -> c <> 47%N ->
  path_join a b = a ++ py "/" ++ b.
Proof.
  intros Ha He -> Hc. unfold path_join.
  replace (startswith (py "/") (c :: t)) with false.
  - now rewrite Ha, He.
  - symmetry. apply N.eqb_neq in Hc.
    change (startswith (py "/") (c :: t)) with ((47 =? c)%N && true).
    rewrite N.eqb_sym, Hc. reflexivity.
Qed.

(** The stem of "<name>.wav" is the name, for a name without dots. *)
Lemma splitext_wav s c t :
  s = c :: t -> Forall (fun x => x <> 46%N) s ->
  fst (splitext (s ++ py ".wav")) = s.
Proof.
  intros Hs Hd. unfold splitext.
  assert (Hrev : rev (s ++ py ".wav") = py "vaw" ++ 46%N :: rev s).
  { rewrite rev_app_distr. reflexivity. }
  rewrite Hrev, drop_until_app by (vm_compute; repeat constructor; discriminate).
  assert (Hf : forallb (N.eqb 46) (rev s) = false).
  { destruct (forallb (N.eqb 46) (rev s)) eqn:E; [|reflexivity].
    rewrite forallb_forall in E.
    assert (Hin : In c (rev s)) by (apply in_rev; rewrite rev_involutive, Hs; now left).
    specialize (E c Hin). apply N.eqb_eq in E.
    rewrite Forall_forall in Hd. exfalso. apply (Hd c); [|now symmetry].
    rewrite Hs. now left. }
  rewrite Hf. simpl. apply rev_involutive.
Qed.

Lemma basename_in_dir dir file :
  Forall (fun c => c <> 47%N) file ->
  basename (dir ++ py "/" ++ file) = file.
Proof.
  intros H. unfold basename.
  rewrite rev_app_distr, rev_app_distr. simpl.
  rewrite <- app_assoc. simpl.
  rewrite take_until_app; [apply rev_involutive|].
  now apply Forall_rev.
Qed.

End NameFacts.

(** X9. A sanitized episode name is never empty, neither starts nor ends
    with an underscore, and sanitizing it again changes nothing. *)
Theorem safe_name_normal_form (u : unicode) (name : str) :
  Recording.safe_name u name <> []
  /\ startswith (py "_") (Recording.safe_name u name) = false
  /\ endswith (py "_") (Recording.safe_name u name) = false
  /\ Recording.safe_name u (Recording.safe_name u name)
     = Recording.safe_name u name.
Proof.
  pose proof (safe_name_kept u name) as Hk.
  destruct (NameFacts.safe_name_cases u name) as [E | (Hne & s & E)].
  - rewrite E. repeat split; try reflexivity. vm_compute. discriminate.
  - split; [exact Hne|].
    set (p := fun c : N => existsb (N.eqb c) (py "_")) in *.
    assert (Hp : forall c, p c = false -> (95 =? c)%N = false).
    { intros c Hc. change (p c) with ((c =? 95)%N || false) in Hc.
      rewrite orb_false_r in Hc. now rewrite N.eqb_sym. }
    split; [|split].
    + destruct (NameFacts.strip_by_first p s) as [E0 | (c & t & E0 & Hc)];
        unfold strip_chars in E; fold p in E; rewrite E, E0 in *.
      * congruence.
      * change (startswith (py "_") (c :: t)) with ((95 =? c)%N && true).
        now rewrite (Hp c Hc).
    + destruct (NameFacts.strip_by_last p s) as [E0 | (t & c & E0 & Hc)];
        unfold strip_chars in E; fold p in E; rewrite E, E0 in *.
      * congruence.
      * unfold endswith. rewrite rev_app_distr.
        change (startswith (rev (py "_")) (rev [c] ++ rev t))
          with ((95 =? c)%N && true).
        now rewrite (Hp c Hc).
    + unfold Recording.safe_name at 1.
      rewrite (NameFacts.map_kept_id u _ Hk).
      assert (Hid : strip_chars (py "_") (Recording.safe_name u name)
                    = Recording.safe_name u name).
      { rewrite E. unfold strip_chars. apply strip_by_idem. }
      rewrite Hid.
      destruct (Recording.safe_name u name); [congruence | reflexivity].
Qed.

(** X10. The recording of an episode is written to
    recordings/<sanitized name>.wav, and the subtitles of that file are
    asked for under subtitles/<sanitized name>, with _en appended when the
    output is translated: the sanitized name survives the path
    operations. *)
Theorem recording_paths_layout (u : unicode) (name : str) (translate : bool) :
  let safe := Recording.safe_name u name in
  let wav_path := path_join RECORDINGS_DIR (safe ++ py ".wav") in
  wav_path = py "recordings/" ++ safe ++ py ".wav"
  /\ basename wav_path = safe ++ py ".wav"
  /\ fst (splitext (basename wav_path)) = safe
  /\ episode_prefix wav_path translate
     = py "subtitles/" ++ safe ++ (if translate then py "_en" else []).
Proof.
  intros safe wav_path.
  pose proof (safe_name_kept u name) as Hk. fold safe in Hk.
  assert (Hne : safe <> []).
  { subst safe. destruct (NameFacts.safe_name_cases u name) as [E | [H _]];
      [rewrite E; vm_compute; discriminate | exact H]. }
  destruct safe as [|c t] eqn:Es; [congruence|].
  assert (Hdot : Forall (fun x => x <> 46%N) (c :: t)).
  { eapply Forall_impl; [|exact Hk]. intros x Hx.
    apply (NameFacts.kept_not_dot_slash u x Hx). }
  assert (Hslash : Forall (fun x => x <> 47%N) (c :: t)).
  { eapply Forall_impl; [|exact Hk]. intros x Hx.
    apply (NameFacts.kept_not_dot_slash u x Hx). }
  assert (Hc : c <> 47%N) by (inversion Hslash; assumption).
  assert (Hwav : wav_path = py "recordings" ++ py "/" ++ (c :: t) ++ py ".wav").
  { subst wav_path.
    apply (NameFacts.path_join_plain _ _ c (t ++ py ".wav"));
      [reflexivity | reflexivity | reflexivity | exact Hc]. }
  assert (Hbase : basename wav_path = (c :: t) ++ py ".wav").
  { rewrite Hwav. apply NameFacts.basename_in_dir.
    apply Forall_app. split; [exact Hslash|].
    vm_compute. repeat constructor; discriminate. }
  assert (Hstem : fst (splitext (basename wav_path)) = c :: t).
  { rewrite Hbase. now apply (NameFacts.splitext_wav _ c t). }
  split; [exact Hwav|]. split; [exact Hbase|]. split; [exact Hstem|].
  unfold episode_prefix. rewrite Hstem.
  rewrite (NameFacts.path_join_plain SUBTITLES_DIR _ c
             (t ++ if translate then py "_en" else []));
    [reflexivity | reflexivity | reflexivity | reflexivity | exact Hc].
Qed.

(** ** Subtitle duration: bounds, order of lines, shape of a time line *)

Module SrtFacts.
Import Srt SrtShape.

Lemma isspace_not_decimal u c : isspace c = true -> decimal u c = None.
Proof.
  intros H. unfold decimal. rewrite H.
  destruct (c <? 128)%N; [|reflexivity].
  destruct ((48 <=? c) && (c <=? 57))%N eqn:E; [|reflexivity].
  exfalso. unfold isspace in H.
  apply andb_true_iff in E as [E1 E2].
  apply N.leb_le in E1, E2.
  repeat (apply orb_true_iff in H as [H | H]);
    try (apply andb_true_iff in H as [H1 H2]; apply N.leb_le in H1, H2; lia);
    try (apply N.eqb_eq in H; lia).
Qed.

Lemma digit_decimal u c :
  (48 <= c <= 57)%N -> decimal u c = Some (Z.of_N c - 48) /\ isspace c = false.
Proof.
  intros [H1 H2]. split.
  - unfold decimal.
    replace (c <? 128)%N with true by (symmetry; apply N.ltb_lt; lia).
    replace (48 <=? c)%N with true by (symmetry; apply N.leb_le; lia).
    replace (c <=? 57)%N with true by (symmetry; apply N.leb_le; lia).
    reflexivity.
  - destruct (isspace c) eqn:E; [|reflexivity].
    pose proof (isspace_not_decimal {| u_isalnum := fun _ => false;
                                       u_decimal := fun _ => None |} c E) as Hn.
    unfold decimal in Hn.
    replace (c <? 128)%N with true in Hn by (symmetry; apply N.ltb_lt; lia).
    replace (48 <=? c)%N with true in Hn by (symmetry; apply N.leb_le; lia).
    replace (c <=? 57)%N with true in Hn by (symmetry; apply N.leb_le; lia).
    discriminate.
Qed.

Lemma span_digits_run u ds rest :
  Forall (fun c => (48 <= c <= 57)%N) ds -> stops u rest ->
  span_digits u (ds ++ rest)
  = (List.map (fun c => Z.of_N c - 48) ds, rest).
Proof.
  intros Hd Hr. induction Hd as [|c ds Hc _ IH].
  - simpl. destruct rest as [|c r]; [reflexivity|].
    simpl in Hr. simpl. now rewrite Hr.
  - cbn [app span_digits List.map].
    rewrite (proj1 (digit_decimal u c Hc)), IH. reflexivity.
Qed.

Lemma number_run u ds rest :
  digit_string ds -> stops u rest ->
  number u (ds ++ rest) = Some (digits_value ds, rest).
Proof.
  intros [Hne Hd] Hr. unfold number.
  rewrite (span_digits_run u ds rest Hd Hr).
  destruct ds as [|c ds]; [congruence|]. reflexivity.
Qed.

Lemma stops_const u c rest :
  decimal u c = None -> stops u (c :: rest).
Proof. intros H. exact H. Qed.

Lemma timestamp_stamp u h m s ms rest :
  digit_string h -> digit_string m -> digit_string s -> digit_string ms ->
  stops u rest ->
  timestamp u (stamp h m s ms rest)
  = Some (digits_value h, digits_value m, digits_value s, digits_value ms, rest).
Proof.
  intros Hh Hm Hs Hms Hr. unfold timestamp, stamp, bind.
  rewrite (number_run u h _ Hh) by reflexivity.
  cbn [drop_prefix py List.map list_ascii_of_string].
  change (N_of_ascii ":" =? 58)%N with true. cbv iota.
  rewrite (number_run u m _ Hm) by reflexivity.
  cbn [drop_prefix py List.map list_ascii_of_string].
  change (N_of_ascii ":" =? 58)%N with true. cbv iota.
  rewrite (number_run u s _ Hs) by reflexivity.
  cbn [drop_prefix py List.map list_ascii_of_string].
  change (N_of_ascii "," =? 44)%N with true. cbv iota.
  rewrite (number_run u ms _ Hms Hr).
  reflexivity.
Qed.

Lemma lstrip_by_lead p lead x :
  forallb p lead = true -> lstrip_by p (lead ++ x) = lstrip_by p x.
Proof.
  induction lead as [|c lead IH]; simpl; [reflexivity|].
  intros H. apply andb_true_iff in H as [-> H]. auto.
Qed.

Lemma forallb_rev {A} (p : A -> bool) l :
  forallb p l = true -> forallb p (rev l) = true.
Proof.
  rewrite !forallb_forall. intros H x Hx. apply H. now apply in_rev.
Qed.

(** Stripping takes away the white space around a core that starts and
    ends with something else. *)
Lemma strip_by_core p lead core tail c z body :
  forallb p lead = true -> forallb p tail = true ->
  core = c :: body -> p c = false ->
  last core z = z -> p z = false ->
  strip_by p (lead ++ core ++ tail) = core.
Proof.
  intros Hl Ht Hc Hpc Hz Hpz. unfold strip_by.
  rewrite (lstrip_by_lead _ _ _ Hl).
  assert (E1 : lstrip_by p (core ++ tail) = core ++ tail).
  { rewrite Hc. simpl. now rewrite Hpc. }
  rewrite E1. unfold rstrip_by.
  rewrite rev_app_distr, (lstrip_by_lead _ _ _ (forallb_rev _ _ Ht)).
  assert (Hne : core <> []) by (rewrite Hc; discriminate).
  rewrite (app_removelast_last z Hne), Hz, rev_app_distr.
  simpl. rewrite Hpz. simpl. now rewrite rev_involutive.
Qed.

Lemma last_app_nonempty {A} (a b : list A) d :
  b <> [] -> last (a ++ b) d = last b d.
Proof.
  intros Hb. induction a as [|x a IH]; [reflexivity|].
  simpl. destruct (a ++ b) eqn:E; [|exact IH].
  apply app_eq_nil in E as [_ E]. congruence.
Qed.

Lemma last_cons_nonempty {A} (x : A) (b : list A) d :
  b <> [] -> last (x :: b) d = last b d.
Proof. intros Hb. destruct b; [congruence | reflexivity]. Qed.

(** The last character of a run of digits is a digit. *)
Lemma digit_string_last ds :
  digit_string ds -> isspace (last ds 48%N) = false.
Proof.
  intros [Hne Hd].
  assert (Hin : In (last ds 48%N) ds).
  { destruct (exists_last Hne) as (b & z & ->). rewrite last_last.
    apply in_or_app. right. now left. }
  rewrite Forall_forall in Hd.
  exact (proj2 (digit_decimal latin1 _ (Hd _ Hin))).
Qed.

Lemma app_nonempty_r {A} (a b : list A) : b <> [] -> a ++ b <> [].
Proof. intros Hb C. apply app_eq_nil in C as [_ C]. congruence. Qed.

Lemma last_stamp h m s ms rest d :
  ms ++ rest <> [] ->
  last (stamp h m s ms rest) d = last (ms ++ rest) d.
Proof.
  intros H. unfold stamp.
  rewrite last_app_nonempty by discriminate.
  rewrite last_cons_nonempty by (apply app_nonempty_r; discriminate).
  rewrite last_app_nonempty by discriminate.
  rewrite last_cons_nonempty by (apply app_nonempty_r; discriminate).
  rewrite last_app_nonempty by discriminate.
  now rewrite last_cons_nonempty.
Qed.

(** The first character of a run of digits is a digit. *)
Lemma digit_string_head ds :
  digit_string ds -> exists c body, ds = c :: body /\ isspace c = false.
Proof.
  intros [Hne Hd]. destruct ds as [|c body]; [congruence|].
  exists c, body. split; [reflexivity|].
  inversion Hd as [|x y Hc _]; subst.
  exact (proj2 (digit_decimal latin1 c Hc)).
Qed.

End SrtFacts.






(** ** Transcription adapter: denylist, choice of the subtitle file,
       search of an executable *)

Module AdapterFacts.
Import Shapes.

Lemma run_whisper_cpp_text engine wav_path segment output_mode lang_code :
  fst (run_whisper_cpp engine wav_path segment output_mode lang_code)
  = strip (remove_garbage
             (strip match read_text
                            (files_after
                               (engine (segment_cmd wav_path output_mode lang_code)
                                       segment))
                            (wav_path ++ py ".txt") with
                    | Some content => content
                    | None => []
                    end)).
Proof.
  unfold run_whisper_cpp. simpl fst.
  destruct (read_text _ _) as [content|]; [|reflexivity].
  destruct (strip content) eqn:E; reflexivity.
Qed.

Lemma str_ltb_irrefl a : str_ltb a a = false.
Proof.
  induction a as [|x a IH]; [reflexivity|].
  simpl. now rewrite N.ltb_irrefl.
Qed.

Lemma str_ltb_asym a : forall b, str_ltb a b = true -> str_ltb b a = false.
Proof.
  induction a as [|x a IH]; intros [|y b]; simpl; try discriminate;
    try reflexivity.
  destruct (x <? y)%N eqn:E1; destruct (y <? x)%N eqn:E2; try discriminate;
    try reflexivity.
  - apply N.ltb_lt in E1, E2. lia.
  - apply IH.
Qed.

Lemma str_ltb_cotrans a : forall b c,
  str_ltb a c = true -> str_ltb a b = true \/ str_ltb b c = true.
Proof.
  induction a as [|x a IH]; intros b c.
  - destruct c as [|z c]; [discriminate|]. intros _.
    destruct b as [|y b]; [now right | now left].
  - destruct c as [|z c]; [discriminate|].
    destruct b as [|y b]; [intros _; now right|].
    simpl.
    destruct (x <? z)%N eqn:Exz; destruct (z <? x)%N eqn:Ezx;
      destruct (x <? y)%N eqn:Exy; destruct (y <? x)%N eqn:Eyx;
      destruct (y <? z)%N eqn:Eyz; destruct (z <? y)%N eqn:Ezy;
      try (intros _; now left); try (intros _; now right);
      try discriminate;
      try (exfalso;
           repeat match goal with
                  | H : (_ <? _)%N = true |- _ => apply N.ltb_lt in H
                  | H : (_ <? _)%N = false |- _ => apply N.ltb_ge in H
                  end; lia).
    apply IH.
Qed.

Lemma insert_sorted_head_least x s :
  head_least s -> head_least (insert_sorted x s).
Proof.
  destruct s as [|y s]; simpl.
  - intros _ q [<- | []]. apply str_ltb_irrefl.
  - intros Hs. destruct (str_ltb y x) eqn:E; simpl.
    + intros q [<- | Hq]; [apply str_ltb_irrefl|].
      apply insert_sorted_In in Hq as [-> | Hq].
      * now apply str_ltb_asym.
      * apply Hs. now right.
    + intros q [<- | Hq]; [apply str_ltb_irrefl|].
      destruct (str_ltb q x) eqn:Eq; [|reflexivity].
      destruct (str_ltb_cotrans q y x Eq) as [H | H].
      * rewrite (Hs q Hq) in H. discriminate.
      * congruence.
Qed.

Lemma sorted_head_least l : head_least (sorted l).
Proof.
  induction l as [|x l IH]; [exact I|].
  simpl. now apply insert_sorted_head_least.
Qed.

Lemma In_insert_sorted x y l : y = x \/ In y l -> In y (insert_sorted x l).
Proof.
  induction l as [|z l IH]; simpl.
  - intros [-> | []]. now left.
  - destruct (str_ltb z x); simpl.
    + intros [-> | [-> | H]]; [right; apply IH; now left | now left |].
      right. apply IH. now right.
    + intros [-> | H]; [now left | now right].
Qed.

Lemma In_sorted y l : In y l -> In y (sorted l).
Proof.
  induction l as [|x l IH]; simpl; [tauto|].
  intros [-> | H]; apply In_insert_sorted; [now left | right; auto].
Qed.

Lemma startswith_app g a b :
  startswith g a = true -> startswith g (a ++ b) = true.
Proof.
  revert a. induction g as [|x g IH]; intros [|y a]; simpl; try discriminate;
    try reflexivity.
  intros H. apply andb_true_iff in H as [-> H]. simpl. auto.
Qed.

Lemma startswith_self g b : startswith g (g ++ b) = true.
Proof.
  induction g as [|x g IH]; simpl; [reflexivity|].
  now rewrite N.eqb_refl.
Qed.

Lemma endswith_app g a b : endswith g b = true -> endswith g (a ++ b) = true.
Proof.
  unfold endswith. rewrite rev_app_distr. apply startswith_app.
Qed.

Lemma endswith_self g a : endswith g (a ++ g) = true.
Proof. unfold endswith. rewrite rev_app_distr. apply startswith_self. Qed.

Lemma drop_prefix_app g : forall s rest,
  drop_prefix g s = Some rest -> s = g ++ rest.
Proof.
  induction g as [|x g IH]; intros [|y s] rest; simpl; try discriminate.
  - now intros [= <-].
  - now intros [= <-].
  - destruct (x =? y)%N eqn:E; [|discriminate].
    apply N.eqb_eq in E. subst y. intros H. now rewrite (IH _ _ H).
Qed.

(** What the pattern <prefix>*.srt lets through. *)
Lemma glob_srt_shape fs prefix p :
  In p (glob_srt fs prefix) ->
  startswith prefix p = true /\ endswith (py ".srt") p = true.
Proof.
  unfold glob_srt. intros H.
  apply in_map_iff in H as (f & <- & Hf).
  apply filter_In in Hf as [_ Hf].
  destruct (drop_prefix prefix (fst f)) as [rest|] eqn:E; [|discriminate].
  apply andb_true_iff in Hf as [He _].
  rewrite (drop_prefix_app _ _ _ E). split.
  - apply startswith_self.
  - now apply endswith_app.
Qed.

(** [find] on the candidates: the first that is executable. *)
Lemma find_first {A} (f : A -> bool) (l : list A) :
  match find f l with
  | Some x => f x = true
              /\ exists before after,
                   l = before ++ x :: after
                   /\ Forall (fun y => f y = false) before
  | None => Forall (fun y => f y = false) l
  end.
Proof.
  induction l as [|a l IH]; simpl; [constructor|].
  destruct (f a) eqn:E.
  - split; [exact E|]. exists [], l. split; [reflexivity | constructor].
  - destruct (find f l) as [x|].
    + destruct IH as (Hx & before & after & -> & Hb).
      split; [exact Hx|]. exists (a :: before), after.
      split; [reflexivity | now constructor].
    + now constructor.
Qed.

End AdapterFacts.

(** X14. When the text the engine wrote is, white space aside, just one
    phrase of the denylist, segment mode returns the empty string, and the
    worker's filter does not forward it, whatever line came last. *)
Theorem lone_credit_is_dropped
    (engine : segment_engine) (wav_path : str) (segment : list sample)
    (output_mode : str) (lang_code : option str)
    (g content last_line : str) :
  In g garbage_phrases ->
  read_text
    (files_after (engine (segment_cmd wav_path output_mode lang_code) segment))
    (wav_path ++ py ".txt") = Some content ->
  strip content = g ->
  fst (run_whisper_cpp engine wav_path segment output_mode lang_code) = []
  /\ Live.accept last_line
       (fst (run_whisper_cpp engine wav_path segment output_mode lang_code))
     = (false, last_line).
Proof.
  intros Hg Hfile Hstrip.
  assert (E : fst (run_whisper_cpp engine wav_path segment output_mode lang_code)
              = []).
  { rewrite AdapterFacts.run_whisper_cpp_text, Hfile, Hstrip.
    unfold garbage_phrases in Hg.
    repeat (destruct Hg as [<- | Hg]; [reflexivity|]). destruct Hg. }
  split; [exact E|]. rewrite E. reflexivity.
Qed.

Lemma lone_credit_is_dropped_witness :
  let engine : segment_engine :=
    fun _ _ => {| returncode := 0; stdout := []; stderr := [];
                  files_after := [(py "/tmp/tmpab12.wav.txt",
                                   py " Thanks for watching!" ++ [10%N])] |} in
  In (py "Thanks for watching!") garbage_phrases
  /\ fst (run_whisper_cpp engine (py "/tmp/tmpab12.wav") [] (py "english") None)
     = []
  /\ Live.accept (py "previous line")
       (fst (run_whisper_cpp engine (py "/tmp/tmpab12.wav") [] (py "english") None))
     = (false, py "previous line").
Proof.
  intros engine.
  assert (H1 : In (py "Thanks for watching!") garbage_phrases)
    by (do 3 right; left; reflexivity).
  split; [exact H1|].
  exact (lone_credit_is_dropped engine (py "/tmp/tmpab12.wav") []
           (py "english") None (py "Thanks for watching!")
           (py " Thanks for watching!" ++ [10%N]) (py "previous line")
           H1 eq_refl eq_refl).
Defined.



(** X16. [which_exec] answers with a path only if that path is
    executable.  An absolute path is answered as it is or not at all; any
    other name is looked up in the directories of PATH in their order, and
    the answer is the candidate of the first directory whose candidate is
    executable; there is no answer exactly when none is. *)
Theorem which_exec_first_executable (h : host) (path : str) :
  match which_exec h path with
  | Some p =>
      access_x h p = true
      /\ if startswith (py "/") path then p = path
         else exists before dir after,
                Host.split 58%N (env_PATH h) = before ++ dir :: after
                /\ p = path_join dir path
                /\ Forall (fun d => access_x h (path_join d path) = false) before
  | None =>
      if startswith (py "/") path then access_x h path = false
      else Forall (fun d => access_x h (path_join d path) = false)
                  (Host.split 58%N (env_PATH h))
  end.
Proof.
  unfold which_exec.
  destruct (startswith (py "/") path).
  - destruct (access_x h path) eqn:E; [now split | reflexivity].
  - pose proof (AdapterFacts.find_first (access_x h)
                  (List.map (fun directory => path_join directory path)
                            (Host.split 58%N (env_PATH h)))) as H.
    destruct (find _ _) as [p|].
    + destruct H as (Hp & before & after & Hl & Hb).
      split; [exact Hp|].
      apply map_eq_app in Hl as (l1 & l2 & Hsplit & Hm1 & Hm2).
      destruct l2 as [|dir l2]; [discriminate|].
      injection Hm2 as Hd _.
      exists l1, dir, l2. split; [exact Hsplit|]. split; [now symmetry|].
      rewrite <- Hm1 in Hb. now apply Forall_map in Hb.
    + now apply Forall_map in H.
Qed.

(** ** Recorder thread *)

Module RecorderFacts.
Import Recorder.

(** The loop writes the reads up to the first test at which the stop
    event is set or the read is empty. *)
Lemma record_loop_prefix (w : world) (rest : list (list byte)) :
  forall i written,
  exists k,
    (k <= length rest)%nat
    /\ fst (record_loop w i rest written) = written ++ concat (firstn k rest)
    /\ (forall j, (j < k)%nat ->
          stop_is_set w (i + j) = false /\ nth j rest [] <> [])
    /\ (stop_is_set w (i + k) = true \/ nth k rest [] = []).
Proof.
  induction rest as [|raw rest IH]; intros i written.
  - exists 0%nat. simpl. rewrite app_nil_r, Nat.add_0_r.
    split; [lia|]. split; [now destruct (stop_is_set w i)|].
    split; [intros j Hj; lia | now right].
  - cbn [record_loop].
    destruct (stop_is_set w i) eqn:Es.
    + exists 0%nat. simpl. rewrite app_nil_r, Nat.add_0_r.
      split; [lia|]. split; [reflexivity|].
      split; [intros j Hj; lia | now left].
    + destruct raw as [|b raw].
      * exists 0%nat. simpl. rewrite app_nil_r.
        split; [lia|]. split; [reflexivity|].
        split; [intros j Hj; lia | now right].
      * destruct (IH (S i) (written ++ b :: raw)) as (k & Hk & Hd & Hbefore & Hat).
        exists (S k). split; [simpl; lia|]. split.
        { rewrite Hd. cbn [firstn concat]. now rewrite <- app_assoc. }
        split.
        { intros [|j] Hj.
          - rewrite Nat.add_0_r. split; [exact Es | discriminate].
          - replace (i + S j)%nat with (S i + j)%nat by lia.
            apply Hbefore. lia. }
        { replace (i + S k)%nat with (S i + k)%nat by lia. exact Hat. }
Qed.

End RecorderFacts.

(** X17. When audiotee is found and the path has a directory part, the
    recorder writes a mono, 16 bit, 16 kHz WAV file whose frames are the
    reads of the pipe, one after the other, up to the first test of the
    loop at which the stop event is set or the read comes back empty:
    nothing read is dropped and nothing is written after that test. *)
Theorem record_worker_writes_prefix (w : Recorder.world) (path : str) :
  which_exec (Recorder.machine w) AUDIO_TEE_PATH <> None ->
  existsb (N.eqb 47%N) path = true ->
  exists data out k,
    Recorder.record_worker w path
    = (Recorder.Recorded
         {| Recorder.nchannels := 1; Recorder.sampwidth := 2;
            Recorder.framerate := SAMPLE_RATE; Recorder.frames := data |}, out)
    /\ (k <= length (Recorder.reads w))%nat
    /\ data = concat (firstn k (Recorder.reads w))
    /\ (forall j, (j < k)%nat ->
          Recorder.stop_is_set w j = false
          /\ nth j (Recorder.reads w) [] <> [])
    /\ (Recorder.stop_is_set w k = true \/ nth k (Recorder.reads w) [] = []).
Proof.
  intros Ha Hp. unfold Recorder.record_worker.
  destruct (which_exec (Recorder.machine w) AUDIO_TEE_PATH) as [exe|];
    [|congruence].
  rewrite Hp. simpl negb. cbv iota.
  destruct (RecorderFacts.record_loop_prefix w (Recorder.reads w) 0%nat [])
    as (k & Hk & Hd & Hbefore & Hat).
  destruct (Recorder.record_loop w 0 (Recorder.reads w) []) as [written out].
  simpl in Hd. subst written.
  eexists _, _, k. split; [reflexivity|].
  split; [exact Hk|]. split; [reflexivity|]. split; [exact Hbefore | exact Hat].
Qed.

Lemma record_worker_writes_prefix_witness :
  let w := {| Recorder.machine := Samples.complete_host;
              Recorder.reads := [[x01; x00]; [x02; x00]; [x03; x00]];
              Recorder.stop_is_set := fun i => Nat.leb 2 i |} in
  which_exec (Recorder.machine w) AUDIO_TEE_PATH <> None
  /\ existsb (N.eqb 47%N) (py "recordings/ep.wav") = true
  /\ exists data out,
       Recorder.record_worker w (py "recordings/ep.wav")
       = (Recorder.Recorded
            {| Recorder.nchannels := 1; Recorder.sampwidth := 2;
               Recorder.framerate := SAMPLE_RATE; Recorder.frames := data |}, out)
       /\ exists k, data = concat (firstn k (Recorder.reads w)).
Proof.
  intros w.
  assert (H1 : which_exec (Recorder.machine w) AUDIO_TEE_PATH <> None)
    by (vm_compute; discriminate).
  assert (H2 : existsb (N.eqb 47%N) (py "recordings/ep.wav") = true)
    by reflexivity.
  split; [exact H1|]. split; [exact H2|].
  destruct (record_worker_writes_prefix w (py "recordings/ep.wav") H1 H2)
    as (data & out & k & Hrun & _ & Hd & _).
  exists data, out. split; [exact Hrun|]. exists k. exact Hd.
Defined.

(** ** Subtitle video and finishing pipeline *)

Module VideoFacts.
Import Video.

(** Replacing a single character works character by character. *)
Lemma replace_char c new s :
  replace [c] new s = flat_map (fun x => if (c =? x)%N then new else [x]) s.
Proof.
  unfold replace. induction s as [|x s IH]; [reflexivity|].
  cbn [replace_from flat_map startswith length].
  change (1 - 1)%nat with 0%nat.
  destruct (c =? x)%N; simpl; now rewrite IH.
Qed.

Lemma flat_map_flat_map {A B C} (f : A -> list B) (g : B -> list C) l :
  flat_map g (flat_map f l) = flat_map (fun x => flat_map g (f x)) l.
Proof.
  induction l as [|x l IH]; [reflexivity|].
  simpl. now rewrite flat_map_app, IH.
Qed.

Lemma ff_srt_path_chars p : ff_srt_path p = flat_map escape_char p.
Proof.
  unfold ff_srt_path. rewrite !replace_char, !flat_map_flat_map.
  apply flat_map_ext. intros x. unfold escape_char.
  destruct (x =? 92)%N eqn:E92.
  - apply N.eqb_eq in E92. subst x. reflexivity.
  - destruct (x =? 58)%N eqn:E58.
    + apply N.eqb_eq in E58. subst x. reflexivity.
    + destruct (x =? 39)%N eqn:E39.
      * apply N.eqb_eq in E39. subst x. reflexivity.
      * rewrite (N.eqb_sym 92 x), E92. cbn [flat_map app].
        rewrite (N.eqb_sym 58 x), E58. cbn [flat_map app].
        rewrite (N.eqb_sym 39 x), E39. reflexivity.
Qed.

End VideoFacts.

Module LayoutFacts.

Lemma splitext_plain s c t ext :
  s = c :: t -> Forall (fun x => x <> 46%N) s ->
  Forall (fun x => x <> 46%N) ext ->
  fst (splitext (s ++ 46%N :: ext)) = s.
Proof.
  intros Hs Hd He. unfold splitext.
  assert (Hrev : rev (s ++ 46%N :: ext) = rev ext ++ 46%N :: rev s).
  { rewrite rev_app_distr. simpl. now rewrite <- app_assoc. }
  rewrite Hrev, NameFacts.drop_until_app by now apply Forall_rev.
  assert (Hf : forallb (N.eqb 46) (rev s) = false).
  { destruct (forallb (N.eqb 46) (rev s)) eqn:E; [|reflexivity].
    rewrite forallb_forall in E.
    assert (Hin : In c (rev s)) by (apply in_rev; rewrite rev_involutive, Hs; now left).
    specialize (E c Hin). apply N.eqb_eq in E.
    rewrite Forall_forall in Hd. exfalso. apply (Hd c); [|now symmetry].
    rewrite Hs. now left. }
  rewrite Hf. simpl. apply rev_involutive.
Qed.

(** The stem of <dir>/<s>.<ext> is <s>, when <s> has no dot and no slash. *)
Lemma stem_in_dir dir s c t ext :
  s = c :: t ->
  Forall (fun x => x <> 46%N) s -> Forall (fun x => x <> 47%N) s ->
  Forall (fun x => x <> 46%N) ext -> Forall (fun x => x <> 47%N) ext ->
  fst (splitext (basename (dir ++ py "/" ++ s ++ 46%N :: ext))) = s.
Proof.
  intros Hs Hd Hsl Hde Hsle.
  rewrite NameFacts.basename_in_dir.
  - now apply (splitext_plain s c t).
  - apply Forall_app. split; [exact Hsl|]. constructor; [discriminate | exact Hsle].
Qed.

(** A sanitized name, and what may be appended to it, is a plain stem. *)
Lemma safe_stem u name (translate : bool) :
  exists c t,
    Recording.safe_name u name ++ (if translate then py "_en" else []) = c :: t
    /\ Recording.safe_name u name <> []
    /\ c <> 47%N
    /\ Forall (fun x => x <> 46%N)
              (Recording.safe_name u name ++ (if translate then py "_en" else []))
    /\ Forall (fun x => x <> 47%N)
              (Recording.safe_name u name ++ (if translate then py "_en" else [])).
Proof.
  pose proof (safe_name_kept u name) as Hk.
  assert (Hne : Recording.safe_name u name <> []).
  { destruct (NameFacts.safe_name_cases u name) as [E | [H _]];
      [rewrite E; vm_compute; discriminate | exact H]. }
  destruct (Recording.safe_name u name) as [|c t]; [congruence|].
  exists c, (t ++ if translate then py "_en" else []).
  assert (Hdot : Forall (fun x => x <> 46%N) (c :: t)).
  { eapply Forall_impl; [|exact Hk]. intros x Hx.
    apply (NameFacts.kept_not_dot_slash u x Hx). }
  assert (Hslash : Forall (fun x => x <> 47%N) (c :: t)).
  { eapply Forall_impl; [|exact Hk]. intros x Hx.
    apply (NameFacts.kept_not_dot_slash u x Hx). }
  split; [reflexivity|]. split; [discriminate|].
  split; [inversion Hslash; assumption|].
  split; apply Forall_app; (split; [assumption|]);
    destruct translate; vm_compute; repeat constructor; discriminate.
Qed.

End LayoutFacts.

(** X18. The path given to the subtitles filter of ffmpeg is the subtitle
    path with a backslash put before every backslash, colon and single
    quote, and nothing else changed; taking those backslashes away gives
    the path back, so no two paths are escaped to the same string. *)
Theorem ff_srt_path_reversible (srt_path : str) :
  Video.ff_srt_path srt_path = flat_map Video.escape_char srt_path
  /\ Video.unescape (Video.ff_srt_path srt_path) = srt_path.
Proof.
  split; [apply VideoFacts.ff_srt_path_chars|].
  rewrite VideoFacts.ff_srt_path_chars.
  induction srt_path as [|x p IH]; [reflexivity|].
  cbn [flat_map]. unfold Video.escape_char at 1.
  destruct (x =? 92)%N eqn:E92.
  { apply N.eqb_eq in E92. subst x. cbn. now rewrite IH. }
  destruct (x =? 58)%N eqn:E58.
  { apply N.eqb_eq in E58. subst x. cbn. now rewrite IH. }
  destruct (x =? 39)%N eqn:E39.
  { apply N.eqb_eq in E39. subst x. cbn. now rewrite IH. }
  cbn [app Video.unescape]. rewrite E92. now rewrite IH.
Qed.

Module PipelineFacts.
Import Video.

Lemma segment_episode_exact h engine wav_path lang_code translate :
  isfile h WHISPER_BIN = true -> isfile h WHISPER_MODEL = true ->
  returncode (engine (episode_cmd wav_path lang_code translate)) = 0 ->
  isfile_in (files_after (engine (episode_cmd wav_path lang_code translate)))
            (episode_prefix wav_path translate ++ py ".srt") = true ->
  fst (segment_episode h engine wav_path lang_code translate)
  = Some (episode_prefix wav_path translate ++ py ".srt").
Proof.
  intros Hb Hm Hr Hf. unfold segment_episode.
  rewrite Hb, Hm, Hr, Hf. reflexivity.
Qed.

Lemma create_subtitle_video_ok w srt_path ffmpeg_exe :
  which_exec (machine w) (py "ffmpeg") = Some ffmpeg_exe ->
  isfile (machine w) srt_path = true ->
  returncode (ffmpeg w (video_cmd w ffmpeg_exe srt_path)) = 0 ->
  fst (create_subtitle_video w srt_path)
  = Some (path_join VIDEO_DIR (fst (splitext (basename srt_path)) ++ py ".mp4")).
Proof.
  intros Hw Hf Hr. unfold create_subtitle_video.
  rewrite Hw, Hf, Hr. reflexivity.
Qed.

Lemma finish_message_both w engine wav_path lang_code output_mode srt c t mp4 c' t' :
  fst (segment_episode (machine w) engine wav_path lang_code
         (str_eqb output_mode (py "english"))) = Some srt ->
  srt = c :: t ->
  fst (create_subtitle_video w srt) = Some mp4 ->
  mp4 = c' :: t' ->
  message (_finish_recording_and_segment w engine wav_path lang_code output_mode)
  = py "Recording saved:" ++ [10%N] ++ wav_path ++ [10%N] ++ [10%N]
    ++ py "Subtitles created:" ++ [10%N] ++ srt ++ [10%N] ++ [10%N]
    ++ py "Subtitle video created:" ++ [10%N] ++ mp4.
Proof.
  intros Hs Hsrt Hv Hmp4. unfold _finish_recording_and_segment.
  destruct (segment_episode _ _ _ _ _) as [s out1]. simpl in Hs. subst s.
  assert (Ts : truthy srt = true) by (rewrite Hsrt; reflexivity).
  rewrite Ts.
  destruct (create_subtitle_video w srt) as [v out2]. simpl in Hv. subst v.
  assert (Tv : truthy mp4 = true) by (rewrite Hmp4; reflexivity).
  rewrite Tv. cbn [message andb]. rewrite <- !app_assoc. reflexivity.
Qed.

Lemma finish_without_subtitles w engine wav_path lang_code output_mode :
  fst (segment_episode (machine w) engine wav_path lang_code
         (str_eqb output_mode (py "english"))) = None ->
  _finish_recording_and_segment w engine wav_path lang_code output_mode
  = {| message := py "Recording saved:" ++ [10%N] ++ wav_path ++ [10%N] ++ [10%N]
                  ++ py "(Subtitle generation failed; see console.)";
       status := py "Overlay running. Not recording.";
       printed := [[PStr (py "[RECORD] Join complete.")]]
                  ++ snd (segment_episode (machine w) engine wav_path lang_code
                            (str_eqb output_mode (py "english")))
                  ++ [] |}.
Proof.
  intros Hs. unfold _finish_recording_and_segment.
  destruct (segment_episode _ _ _ _ _) as [s out1]. simpl in Hs. subst s.
  cbn [snd]. rewrite <- !app_assoc. reflexivity.
Qed.

End PipelineFacts.

(** X19. When a recording made under an episode name is finished and both
    engines do their part (whisper.cpp exits with status 0 and leaves
    <prefix>.srt, ffmpeg is found and exits with status 0), the message
    names recordings/<safe>.wav, subtitles/<safe>[_en].srt and
    videos/<safe>[_en].mp4, with _en exactly when the output mode is
    english: the sanitized name is carried through all three stages. *)
Theorem finishing_pipeline_layout (u : unicode) (w : Video.world)
    (engine : file_engine) (name : str) (lang_code : option str)
    (output_mode ffmpeg_exe : str) :
  let safe := Recording.safe_name u name in
  let wav_path := path_join RECORDINGS_DIR (safe ++ py ".wav") in
  let translate := str_eqb output_mode (py "english") in
  let stem := safe ++ (if translate then py "_en" else []) in
  let srt_path := py "subtitles/" ++ stem ++ py ".srt" in
  let mp4_path := py "videos/" ++ stem ++ py ".mp4" in
  isfile (Video.machine w) WHISPER_BIN = true ->
  isfile (Video.machine w) WHISPER_MODEL = true ->
  returncode (engine (episode_cmd wav_path lang_code translate)) = 0 ->
  isfile_in (files_after (engine (episode_cmd wav_path lang_code translate)))
            srt_path = true ->
  which_exec (Video.machine w) (py "ffmpeg") = Some ffmpeg_exe ->
  isfile (Video.machine w) srt_path = true ->
  returncode (Video.ffmpeg w (Video.video_cmd w ffmpeg_exe srt_path)) = 0 ->
  wav_path = py "recordings/" ++ safe ++ py ".wav"
  /\ Video.message
       (Video._finish_recording_and_segment w engine wav_path lang_code
          output_mode)
     = py "Recording saved:" ++ [10%N] ++ wav_path ++ [10%N] ++ [10%N]
       ++ py "Subtitles created:" ++ [10%N] ++ srt_path ++ [10%N] ++ [10%N]
       ++ py "Subtitle video created:" ++ [10%N] ++ mp4_path.
Proof.
  intros safe wav_path translate stem srt_path mp4_path
         Hb Hm Hr Hfile Hff Hsrt Hrv.
  destruct (LayoutFacts.safe_stem u name false) as (c0 & t0 & E0 & _ & Hc0 & Hd0 & Hs0).
  rewrite app_nil_r in E0, Hd0, Hs0. fold safe in E0, Hd0, Hs0.
  destruct (LayoutFacts.safe_stem u name translate) as (c & t & E & _ & Hc & Hd & Hs).
  fold safe in E, Hd, Hs. fold stem in E, Hd, Hs.
  assert (Hwav : wav_path = py "recordings" ++ py "/" ++ safe ++ py ".wav").
  { unfold wav_path.
    apply (NameFacts.path_join_plain _ _ c0 (t0 ++ py ".wav"));
      [reflexivity | reflexivity | now rewrite E0 | exact Hc0]. }
  assert (Hstem : fst (splitext (basename wav_path)) = safe).
  { rewrite Hwav.
    apply (LayoutFacts.stem_in_dir (py "recordings") safe c0 t0 (py "wav"));
      try assumption; vm_compute; repeat constructor; discriminate. }
  assert (Hprefix : episode_prefix wav_path translate = py "subtitles/" ++ stem).
  { unfold episode_prefix. rewrite Hstem. fold stem.
    rewrite (NameFacts.path_join_plain SUBTITLES_DIR stem c t);
      [reflexivity | reflexivity | reflexivity | exact E | exact Hc]. }
  assert (Hexact : episode_prefix wav_path translate ++ py ".srt" = srt_path).
  { rewrite Hprefix. unfold srt_path. now rewrite <- app_assoc. }
  assert (Hseg : fst (segment_episode (Video.machine w) engine wav_path
                        lang_code translate) = Some srt_path).
  { rewrite <- Hexact.
    apply PipelineFacts.segment_episode_exact; try assumption.
    now rewrite Hexact. }
  assert (Hvid : fst (Video.create_subtitle_video w srt_path) = Some mp4_path).
  { rewrite (PipelineFacts.create_subtitle_video_ok w srt_path ffmpeg_exe
               Hff Hsrt Hrv).
    f_equal.
    assert (Hst : fst (splitext (basename srt_path)) = stem).
    { apply (LayoutFacts.stem_in_dir (py "subtitles") stem c t (py "srt"));
        try assumption; vm_compute; repeat constructor; discriminate. }
    rewrite Hst.
    rewrite (NameFacts.path_join_plain VIDEO_DIR (stem ++ py ".mp4") c
               (t ++ py ".mp4"));
      [reflexivity | reflexivity | reflexivity | now rewrite E | exact Hc]. }
  split; [exact Hwav|].
  apply (PipelineFacts.finish_message_both w engine wav_path lang_code
           output_mode srt_path _ _ mp4_path _ _ Hseg eq_refl Hvid eq_refl).
Qed.

Lemma finishing_pipeline_layout_witness :
  Video.message
    (Video._finish_recording_and_segment (Studio.studio 0)
       Studio.studio_engine
       (path_join RECORDINGS_DIR (Recording.safe_name latin1 (py "ep 1") ++ py ".wav"))
       None (py "english"))
  = py "Recording saved:" ++ [10%N] ++ py "recordings/ep_1.wav" ++ [10%N] ++ [10%N]
    ++ py "Subtitles created:" ++ [10%N] ++ py "subtitles/ep_1_en.srt"
    ++ [10%N] ++ [10%N]
    ++ py "Subtitle video created:" ++ [10%N] ++ py "videos/ep_1_en.mp4".
Proof.
  exact (proj2 (finishing_pipeline_layout latin1 (Studio.studio 0)
                  Studio.studio_engine (py "ep 1") None (py "english")
                  (py "/usr/local/bin/ffmpeg")
                  eq_refl eq_refl eq_refl eq_refl eq_refl eq_refl eq_refl)).
Defined.

(** X20. When the subtitles could not be made, the finishing pipeline does
    not go on to the video: whatever ffmpeg would do, the message is the
    one that reports the failed subtitles (after the path of the
    recording), the status line is reset and nothing is printed beyond
    what [segment_episode] printed. *)
Theorem no_video_without_subtitles (w w' : Video.world) (engine : file_engine)
    (wav_path : str) (lang_code : option str) (output_mode : str) :
  Video.machine w = Video.machine w' ->
  fst (segment_episode (Video.machine w) engine wav_path lang_code
         (str_eqb output_mode (py "english"))) = None ->
  Video._finish_recording_and_segment w engine wav_path lang_code output_mode
  = Video._finish_recording_and_segment w' engine wav_path lang_code output_mode
  /\ Video.message
       (Video._finish_recording_and_segment w engine wav_path lang_code
          output_mode)
     = py "Recording saved:" ++ [10%N] ++ wav_path ++ [10%N] ++ [10%N]
       ++ py "(Subtitle generation failed; see console.)"
  /\ Video.status
       (Video._finish_recording_and_segment w engine wav_path lang_code
          output_mode)
     = py "Overlay running. Not recording.".
Proof.
  intros Hm Hs.
  pose proof Hs as Hs'. rewrite Hm in Hs'.
  rewrite (PipelineFacts.finish_without_subtitles w _ _ _ _ Hs).
  rewrite (PipelineFacts.finish_without_subtitles w' _ _ _ _ Hs').
  rewrite Hm. repeat split.
Qed.

Lemma no_video_without_subtitles_witness :
  Video.machine (Studio.studio 0) = Video.machine (Studio.studio 1)
  /\ fst (segment_episode (Video.machine (Studio.studio 0))
            Samples.failing_file_engine (py "recordings/ep_1.wav") None
            (str_eqb (py "english") (py "english"))) = None
  /\ Video._finish_recording_and_segment (Studio.studio 0)
       Samples.failing_file_engine (py "recordings/ep_1.wav") None (py "english")
     = Video._finish_recording_and_segment (Studio.studio 1)
         Samples.failing_file_engine (py "recordings/ep_1.wav") None (py "english").
Proof.
  assert (H1 : Video.machine (Studio.studio 0)
               = Video.machine (Studio.studio 1)) by reflexivity.
  assert (H2 : fst (segment_episode (Video.machine (Studio.studio 0))
                      Samples.failing_file_engine (py "recordings/ep_1.wav")
                      None (str_eqb (py "english") (py "english"))) = None)
    by reflexivity.
  split; [exact H1|]. split; [exact H2|].
  exact (proj1 (no_video_without_subtitles (Studio.studio 0)
                  (Studio.studio 1) Samples.failing_file_engine
                  (py "recordings/ep_1.wav") None (py "english") H1 H2)).
Defined.

(** ** Toolbar *)

(** X21. Whatever buttons are pressed, and from whatever size, A- never
    takes the font size below 8; from the size the window starts with, the
    size stays even and at least 8. *)
Theorem font_size_bounds (presses : list Toolbar.button) (size : Z) :
  8 <= Toolbar.decrease_font size
  /\ 8 <= fold_left Toolbar.press presses Toolbar.font_size_init
  /\ Z.even (fold_left Toolbar.press presses Toolbar.font_size_init) = true.
Proof.
  split; [unfold Toolbar.decrease_font; lia|].
  assert (H : forall s, 8 <= s -> Z.even s = true ->
                8 <= fold_left Toolbar.press presses s
                /\ Z.even (fold_left Toolbar.press presses s) = true).
  { induction presses as [|b presses IH]; intros s Hs He; [now split|].
    cbn [fold_left]. apply IH.
    - destruct b; unfold Toolbar.press, Toolbar.increase_font,
        Toolbar.decrease_font; lia.
    - destruct b; unfold Toolbar.press, Toolbar.increase_font,
        Toolbar.decrease_font.
      + replace (s + 2) with (Z.succ (Z.succ s)) by lia.
        now rewrite Z.even_succ_succ.
      + destruct (Z.max_spec 8 (s - 2)) as [[_ ->] | [_ ->]]; [|reflexivity].
        replace s with (Z.succ (Z.succ (s - 2))) in He by lia.
        now rewrite Z.even_succ_succ in He. }
  apply H; [unfold Toolbar.font_size_init; lia | reflexivity].
Qed.

(** X22. Whatever the language menu shows, the language given to
    whisper.cpp after [on_lang_change] is "auto" or one of the eight codes
    of the table, and it is "auto" for "Auto-detect" and for anything the
    table does not have; after [on_output_change] the translation flag of
    the finishing pipeline is set exactly when the choice starts with
    "English". *)
Theorem menus_to_engine_arguments (display choice : str) (config : AppConfig) :
  In (whisper_lang_of (get_source_lang (Toolbar.on_lang_change display config)))
     [py "auto"; py "hi"; py "ja"; py "ko"; py "zh"; py "he"; py "te";
      py "kn"; py "en"]
  /\ (Toolbar.dict_get Toolbar.LANG_DISPLAY_TO_CODE display = None ->
      whisper_lang_of (get_source_lang (Toolbar.on_lang_change display config))
      = py "auto")
  /\ Toolbar.dict_get Toolbar.LANG_DISPLAY_TO_CODE (py "Auto-detect") = None
  /\ str_eqb (get_output_mode (Toolbar.on_output_change choice config))
             (py "english")
     = startswith (py "English") choice
  /\ get_output_mode (Toolbar.on_lang_change display config)
     = get_output_mode config
  /\ get_source_lang (Toolbar.on_output_change choice config)
     = get_source_lang config.
Proof.
  split; [|split; [|split; [|split; [|split]]]].
  - unfold Toolbar.on_lang_change, get_source_lang, set_source_lang.
    cbn [_source_lang].
    unfold Toolbar.LANG_DISPLAY_TO_CODE, Toolbar.dict_get.
    repeat match goal with
           | |- context [str_eqb ?k display] =>
               destruct (str_eqb k display);
               [vm_compute; repeat (first [left; reflexivity | right])|]
           end.
    left. reflexivity.
  - intros H. unfold Toolbar.on_lang_change, get_source_lang, set_source_lang.
    cbn [_source_lang]. rewrite H. reflexivity.
  - reflexivity.
  - unfold Toolbar.on_output_change.
    destruct (startswith (py "English") choice); reflexivity.
  - reflexivity.
  - unfold Toolbar.on_output_change.
    destruct (startswith (py "English") choice); reflexivity.
Qed.

Lemma menus_to_engine_arguments_witness :
  Toolbar.dict_get Toolbar.LANG_DISPLAY_TO_CODE (py "Klingon (tlh)") = None
  /\ whisper_lang_of
       (get_source_lang
          (Toolbar.on_lang_change (py "Klingon (tlh)") AppConfig_init))
     = py "auto".
Proof.
  assert (H : Toolbar.dict_get Toolbar.LANG_DISPLAY_TO_CODE (py "Klingon (tlh)")
              = None) by reflexivity.
  split; [exact H|].
  exact (proj1 (proj2 (menus_to_engine_arguments (py "Klingon (tlh)") []
                         AppConfig_init)) H).
Defined.

(** ** Subtitle video: when a path is returned *)

(** X23. [create_subtitle_video] returns a path only when ffmpeg was found
    in PATH, the subtitle file exists and ffmpeg exited with status 0, and
    the path is then <stem of the subtitle file>.mp4 in the videos
    directory; when ffmpeg is missing or the subtitle file is not there,
    ffmpeg is not run and one error line is printed. *)
Theorem create_subtitle_video_result (w : Video.world) (srt_path : str) :
  match fst (Video.create_subtitle_video w srt_path) with
  | Some mp4_path =>
      exists ffmpeg_exe,
        which_exec (Video.machine w) (py "ffmpeg") = Some ffmpeg_exe
        /\ access_x (Video.machine w) ffmpeg_exe = true
        /\ isfile (Video.machine w) srt_path = true
        /\ returncode (Video.ffmpeg w (Video.video_cmd w ffmpeg_exe srt_path)) = 0
        /\ mp4_path
           = path_join VIDEO_DIR (fst (splitext (basename srt_path)) ++ py ".mp4")
        /\ last (Video.video_cmd w ffmpeg_exe srt_path) [] = mp4_path
  | None =>
      match which_exec (Video.machine w) (py "ffmpeg") with
      | None =>
          snd (Video.create_subtitle_video w srt_path)
          = [[PStr (py "[VIDEO ERROR] ffmpeg not found in PATH.")]]
      | Some ffmpeg_exe =>
          if isfile (Video.machine w) srt_path
          then returncode (Video.ffmpeg w (Video.video_cmd w ffmpeg_exe srt_path))
               <> 0
          else snd (Video.create_subtitle_video w srt_path)
               = [[PStr (py "[VIDEO ERROR] SRT not found:"); PStr srt_path]]
      end
  end.
Proof.
  unfold Video.create_subtitle_video.
  pose proof (AdapterFacts.find_first (access_x (Video.machine w))) as Hfind.
  destruct (which_exec (Video.machine w) (py "ffmpeg")) as [exe|] eqn:Ew;
    [|reflexivity].
  destruct (isfile (Video.machine w) srt_path) eqn:Ef; [|reflexivity].
  simpl negb. cbv iota.
  destruct (returncode (Video.ffmpeg w (Video.video_cmd w exe srt_path)) =? 0)
    eqn:Er; simpl.
  - apply Z.eqb_eq in Er. exists exe.
    split; [reflexivity|]. split.
    { unfold which_exec in Ew.
      change (startswith (py "/") (py "ffmpeg")) with false in Ew.
      cbv iota in Ew.
      specialize (Hfind (List.map (fun directory => path_join directory (py "ffmpeg"))
                                  (Host.split 58%N (env_PATH (Video.machine w))))).
      rewrite Ew in Hfind. exact (proj1 Hfind). }
    split; [reflexivity|]. split; [exact Er|]. split; reflexivity.
  - now apply Z.eqb_neq in Er.
Qed.

(** ** Live segmentation loop: stopping *)

Module StopFacts.
Import Live LiveFacts.

Section Stop.

Variables seg step : Z.
Variable w : world.
Hypothesis step_pos : 0 < step.
Hypothesis step_le_seg : step <= seg.

(** The stop event is looked at before every read: once it is set at the
    [k]-th test, no read from the [k]-th on is taken in. *)
Lemma loop_stop_bound rest : forall i st stream k,
  (i <= k)%nat -> stop_is_set w k = true ->
  windows_ok seg st stream -> log_ok seg step st ->
  exists st' m,
    final_state (loop seg step w i rest st) = Some st'
    /\ (m <= k - i)%nat
    /\ log_ok seg step st'
    /\ windows_ok seg st' (stream ++ decode_all (firstn m rest)).
Proof.
  induction rest as [|raw rest IH]; intros i st stream k Hik Hk Hw Hok.
  - rewrite loop_nil.
    destruct (stop_is_set w i); eexists; exists 0%nat; simpl;
      rewrite app_nil_r; (split; [reflexivity|]);
      (split; [lia|]); split; solve [exact Hok | exact Hw].
  - rewrite loop_cons.
    assert (Hhere : forall o st0, final_state o = Some st0 ->
              log_ok seg step st0 -> windows_ok seg st0 stream ->
              exists st' m, final_state o = Some st'
                /\ (m <= k - i)%nat
                /\ log_ok seg step st'
                /\ windows_ok seg st'
                     (stream ++ decode_all (firstn m (raw :: rest)))).
    { intros o st0 Ho Hl0 Hw0. exists st0, 0%nat. simpl.
      rewrite app_nil_r. split; [exact Ho|]. split; [lia|].
      split; [exact Hl0 | exact Hw0]. }
    destruct (stop_is_set w i) eqn:Es; [now apply (Hhere _ st)|].
    assert (Hlt : (S i <= k)%nat).
    { destruct (Nat.eq_dec i k) as [-> | Hne]; [congruence | lia]. }
    destruct raw as [|b raw];
      [apply (Hhere _ (say st [PStr (py "[INFO] audiotee EOF")]));
       solve [reflexivity | exact Hok | exact Hw]|].
    destruct (frombuffer_i2 (b :: raw)) as [pcm|] eqn:Ef;
      [|now apply (Hhere _ st)].
    cbv zeta. set (st1 := concatenate st (to_float pcm)).
    destruct (drain_total seg step w step_pos step_le_seg
                (S (length (buffer st1))) st1) as [st2 E]; [lia|].
    rewrite E.
    destruct (IH (S i) st2 (stream ++ to_float pcm) k Hlt Hk)
      as (st' & m & Hf & Hm & Hl & Hwin).
    + apply (drain_windows_ok seg step w step_pos step_le_seg _ st1 st2 _
               (concatenate_windows_ok seg _ _ _ Hw) E).
    + exact (proj1 (drain_log_ok seg step w step_pos step_le_seg _ st1 st2 Hok E)).
    + exists st', (S m). split; [exact Hf|]. split; [lia|]. split; [exact Hl|].
      change (firstn (S m) ((b :: raw) :: rest))
        with ((b :: raw) :: firstn m rest).
      unfold decode_all at 1. cbn [flat_map]. fold (decode_all (firstn m rest)).
      rewrite Ef, app_assoc. exact Hwin.
Qed.

End Stop.

End StopFacts.

(** X24. The stop event is looked at before every read and at no other
    time: when it is set at the k-th test of the loop, the worker ends
    having taken in at most the first k reads, and every sample of those
    is in the buffer or was shifted out after a call. *)
Theorem stop_bounds_reads (w : Live.world) (k : nat) :
  Live.stop_is_set w k = true ->
  exists st m,
    Live.final_state (Live.audio_worker w) = Some st
    /\ (m <= k)%nat
    /\ Z.of_nat (length (Live.buffer st))
       + Live.step_samples * Z.of_nat (length (Live.calls st))
       = Z.of_nat (length (Live.decode_all (firstn m (Live.reads w))))
    /\ Forall (fun e =>
         Live.em_segment e
         = Live.window (Live.em_offset e) Live.segment_samples
             (Live.decode_all (firstn m (Live.reads w))))
         (Live.calls st).
Proof.
  intros Hk.
  destruct (WorkerFacts.audio_worker_cases w)
    as [[out ->] | (st0 & -> & Hb & Hd & Hc)].
  - eexists. exists 0%nat. split; [reflexivity|]. simpl.
    repeat split; try lia. constructor.
  - destruct (StopFacts.loop_stop_bound Live.segment_samples Live.step_samples w
                WorkerFacts.step_samples_pos WorkerFacts.step_le_segment
                (Live.reads w) 0%nat st0 [] k)
      as (st & m & Hf & Hm & (Hdr & _ & _) & (Hrange & Hbuf & Hwin)).
    + lia.
    + exact Hk.
    + now apply WorkerFacts.start_windows_ok.
    + now apply WorkerFacts.start_log_ok.
    + exists st, m. simpl app in *. split; [exact Hf|]. split; [lia|]. split.
      * rewrite <- Hdr, Hbuf, length_skipn. lia.
      * eapply Forall_impl; [|exact Hwin]. cbv beta. intros e (_ & _ & He).
        exact He.
Qed.

Lemma stop_bounds_reads_witness :
  let w := {| Live.machine := Samples.complete_host;
              Live.reads := repeat Samples.silence 3;
              Live.stop_is_set := fun i => Nat.leb 1 i;
              Live.config_at := fun _ => AppConfig_init;
              Live.tmp_name_at := fun _ => py "/tmp/tmpab12.wav";
              Live.engine_at := fun _ => Samples.silent_engine |} in
  Live.stop_is_set w 1 = true
  /\ exists st m,
       Live.final_state (Live.audio_worker w) = Some st /\ (m <= 1)%nat.
Proof.
  intros w.
  assert (H : Live.stop_is_set w 1 = true) by reflexivity.
  split; [exact H|].
  destruct (stop_bounds_reads w 1 H) as (st & m & Hf & Hm & _).
  exists st, m. split; [exact Hf | exact Hm].
Defined.
